(** * FlyBy backend: flight-search endpoint, token cache and normalizers

    Shallow embedding of [src/server.js].  The file holds two versions of
    the route: the first (lines 1-177, Amadeus only) and the unified one
    (lines 179-411, Amadeus or SerpApi selected by [FLYBY_PROVIDER]).
    Both are embedded; the unified one is the current design.  The
    earliest server, [src/unnamed/part_000] (no token cache, the upstream
    answer forwarded as it came), is embedded as well.

    JavaScript values are modelled by [jval].  Numbers are integers
    here ([Z]), with a separate [JNaN]; strings are ASCII strings and
    [toUpperCase]/[trim] act on ASCII.  Objects are association lists of
    their own properties (as [JSON.parse] builds them); inherited
    [Object.prototype] members are not modelled.  Query parameters are
    absent or a single string.  Time and the upstream HTTP responses are
    inputs of the model (an oracle), the token cache is explicit state and
    every upstream request made is recorded in a call log. *)

From Stdlib Require Import String Ascii List ZArith Lia Bool.
From Stdlib Require Import DecimalNat DecimalString.
From Stdlib Require DecimalPos DecimalZ.
Import ListNotations.
Open Scope string_scope.
Set Warnings "-register-all".

(** ** JavaScript values *)

Inductive jval : Type :=
| JUndef
| JNull
| JBool (b : bool)
| JNum (n : Z)
| JNaN
| JStr (s : string)
| JArr (l : list jval)
| JObj (kvs : list (string * jval)).

(** JS truthiness ([ToBoolean]). *)
Definition truthy (v : jval) : bool :=
  match v with
  | JUndef | JNull | JNaN => false
  | JBool b => b
  | JNum n => negb (Z.eqb n 0%Z)
  | JStr s => negb (String.eqb s "")
  | JArr _ | JObj _ => true
  end.

Definition nullish (v : jval) : bool :=
  match v with JUndef | JNull => true | _ => false end.

(** [a || b] *)
Definition js_or (a b : jval) : jval := if truthy a then a else b.
Infix "||'" := js_or (at level 50, left associativity).

(** ** Number and string conversions *)

(** Decimal rendering of integers, as [String(n)] prints them. *)
Definition show_nat (n : nat) : string := NilEmpty.string_of_uint (Nat.to_uint n).
Definition show_Z (z : Z) : string := NilEmpty.string_of_int (Z.to_int z).

Definition is_ws (c : ascii) : bool :=
  match nat_of_ascii c with
  | 9 | 10 | 11 | 12 | 13 | 32 => true
  | _ => false
  end%nat.

Fixpoint trim_start (s : string) : string :=
  match s with
  | EmptyString => EmptyString
  | String c r => if is_ws c then trim_start r else s
  end.

Definition trim_end (s : string) : string :=
  string_of_list_ascii (rev (list_ascii_of_string (trim_start
    (string_of_list_ascii (rev (list_ascii_of_string s)))))).

(** [String.prototype.trim] *)
Definition trim (s : string) : string := trim_end (trim_start s).

Definition upper_char (c : ascii) : ascii :=
  let n := nat_of_ascii c in
  if ((97 <=? n) && (n <=? 122))%nat then ascii_of_nat (n - 32)%nat else c.

(** [String.prototype.toUpperCase] on ASCII letters; other characters
    are left as they are (JS maps them by the Unicode rules). *)
Fixpoint upper (s : string) : string :=
  match s with
  | EmptyString => EmptyString
  | String c r => String (upper_char c) (upper r)
  end.

Definition digit_val (c : ascii) : option Z :=
  let n := nat_of_ascii c in
  if ((48 <=? n) && (n <=? 57))%nat then Some (Z.of_nat (n - 48)%nat) else None.

(** Longest prefix of decimal digits: its value (accumulated on [acc]) and
    whether at least one digit was read. *)
Fixpoint digits_prefix (s : string) (acc : Z) (seen : bool) : Z * bool :=
  match s with
  | EmptyString => (acc, seen)
  | String c r =>
      match digit_val c with
      | Some d => digits_prefix r (10 * acc + d)%Z true
      | None => (acc, seen)
      end
  end.

(** The whole string is a non-empty run of digits. *)
Fixpoint all_digits (s : string) : bool :=
  match s with
  | EmptyString => true
  | String c r => match digit_val c with Some _ => all_digits r | None => false end
  end.

Definition split_sign (s : string) : Z * string :=
  match s with
  | String "-" r => ((-1)%Z, r)
  | String "+" r => (1%Z, r)
  | _ => (1%Z, s)
  end%char.

(** [parseInt(s, 10)]: [None] is [NaN].  The value is an unbounded
    integer; JS returns a double, which agrees with it on the safe range
    [|n| <= 2^53] and rounds beyond. *)
Definition parseInt (s : string) : option Z :=
  let '(sg, r) := split_sign (trim_start s) in
  match digits_prefix r 0%Z false with
  | (n, true) => Some (sg * n)%Z
  | (_, false) => None
  end.

(** [StringToNumber] for integer literals (the only numbers of this model);
    any other text is [NaN]. *)
Definition string_to_number (s : string) : option Z :=
  let t := trim s in
  if String.eqb t EmptyString then Some 0%Z else
  let '(sg, r) := split_sign t in
  if negb (String.eqb r EmptyString) && all_digits r
  then Some (sg * fst (digits_prefix r 0 false))%Z else None.

(** [ToString] *)
Fixpoint to_str (v : jval) : string :=
  match v with
  | JUndef => "undefined"
  | JNull => "null"
  | JBool true => "true"
  | JBool false => "false"
  | JNum n => show_Z n
  | JNaN => "NaN"
  | JStr s => s
  | JArr l =>
      (fix join (l : list jval) : string :=
         match l with
         | [] => EmptyString
         | x :: r =>
             let e := match x with JUndef | JNull => EmptyString | _ => to_str x end in
             match r with [] => e | _ => e ++ "," ++ join r end
         end) l
  | JObj _ => "[object Object]"
  end.

(** [ToNumber]: [None] is [NaN]. *)
Definition to_number (v : jval) : option Z :=
  match v with
  | JUndef | JNaN => None
  | JNull => Some 0%Z
  | JBool b => Some (if b then 1 else 0)%Z
  | JNum n => Some n
  | JStr s => string_to_number s
  | JArr _ | JObj _ => string_to_number (to_str v)
  end.

Definition num_of (o : option Z) : jval :=
  match o with Some n => JNum n | None => JNaN end.

(** Binary [+]: string concatenation as soon as one primitive is a string. *)
Definition js_add (a b : jval) : jval :=
  let prim v := match v with JArr _ | JObj _ => JStr (to_str v) | _ => v end in
  match prim a, prim b with
  | JStr x, pb => JStr (x ++ to_str pb)
  | pa, JStr y => JStr (to_str pa ++ y)
  | pa, pb =>
      num_of (match to_number pa, to_number pb with
              | Some x, Some y => Some (x + y)%Z | _, _ => None end)
  end.

(** Binary [-]. *)
Definition js_sub (a b : jval) : jval :=
  num_of (match to_number a, to_number b with
          | Some x, Some y => Some (x - y)%Z | _, _ => None end).

(** ** Exceptions and property access *)

(** A thrown JS error: its constructor name and its [message]. *)
Record exn : Type := Exn { ex_name : string; ex_message : string }.

Inductive res (A : Type) : Type :=
| Ok (a : A)
| Throw (e : exn).
Arguments Ok {A} a.
Arguments Throw {A} e.

Definition res_bind {A B} (m : res A) (k : A -> res B) : res B :=
  match m with Ok a => k a | Throw e => Throw e end.
Notation "'let*' x ':=' m 'in' k" := (res_bind m (fun x => k))
  (at level 200, x name, m at level 100, k at level 200).

Definition type_error (msg : string) : exn := Exn "TypeError" msg.

Fixpoint assoc (k : string) (kvs : list (string * jval)) : option jval :=
  match kvs with
  | [] => None
  | (k', v) :: r => if String.eqb k k' then Some v else assoc k r
  end.

(** Canonical array index ("0", "1", ..., no sign or leading zero). *)
Definition array_index (k : string) : option nat :=
  match NilEmpty.uint_of_string k with
  | Some d => let n := Nat.of_uint d in
              if String.eqb (show_nat n) k then Some n else None
  | None => None
  end.

(** [v[k]] on a value that is not [null]/[undefined]; on those it is
    [undefined] here (used for [?.] and for receivers that are never
    nullish in the source, such as the result of [x || {}]). *)
Definition prop (v : jval) (k : string) : jval :=
  match v with
  | JObj kvs => match assoc k kvs with Some x => x | None => JUndef end
  | JArr l =>
      if String.eqb k "length" then JNum (Z.of_nat (length l)) else
      match array_index k with
      | Some i => nth i l JUndef
      | None => JUndef
      end
  | JStr s =>
      if String.eqb k "length" then JNum (Z.of_nat (String.length s)) else
      match array_index k with
      | Some i => match String.get i s with
                  | Some c => JStr (String c EmptyString)
                  | None => JUndef
                  end
      | None => JUndef
      end
  | _ => JUndef
  end.

(** [v.k]: throws on [null] and [undefined]. *)
Definition js_get (v : jval) (k : string) : res jval :=
  if nullish v
  then Throw (type_error ("Cannot read properties of " ++ to_str v
                          ++ " (reading '" ++ k ++ "')"))
  else Ok (prop v k).

(** [v?.k] *)
Definition oget (v : jval) (k : string) : jval := prop v k.

(** [v.toUpperCase()]: only strings have the method.  The TypeError's
    message is abbreviated (V8 names the receiver expression). *)
Definition js_upper (v : jval) : res string :=
  match v with
  | JStr s => Ok (upper s)
  | _ => Throw (type_error "toUpperCase is not a function")
  end.

(** [a.map(f)] and [a.filter(p)]: only arrays have the methods.  The
    TypeError's message is abbreviated (V8 names the receiver). *)
Fixpoint map_res {A B} (f : A -> res B) (l : list A) : res (list B) :=
  match l with
  | [] => Ok []
  | x :: r => let* y := f x in let* ys := map_res f r in Ok (y :: ys)
  end.

Fixpoint filter_res {A} (p : A -> res bool) (l : list A) : res (list A) :=
  match l with
  | [] => Ok []
  | x :: r => let* b := p x in let* ys := filter_res p r in
              Ok (if b then x :: ys else ys)
  end.

Definition js_map {B} (f : jval -> res B) (a : jval) : res (list B) :=
  match a with
  | JArr l => map_res f l
  | _ => Throw (type_error "map is not a function")
  end.

(** [s.split(',')] *)
Fixpoint split_comma (s : string) : list string :=
  match s with
  | EmptyString => [EmptyString]
  | String c r =>
      match split_comma r with
      | [] => []
      | w :: ws => if Ascii.eqb c "," then EmptyString :: w :: ws
                   else String c w :: ws
      end
  end.

(** A JS [Set] of strings: its elements; [has] and [size > 0]. *)
Definition set_has (st : list string) (x : string) : bool :=
  existsb (String.eqb x) st.
Definition set_nonempty (st : list string) : bool :=
  match st with [] => false | _ => true end.

(** ** Flight records and the two normalizers *)

(** The object literal each mapping returns (a FlightRecord). *)
Record flight : Type := Flight {
  id : jval;
  airline : jval;
  airlineName : jval;
  flightNumber : jval;
  departureIATA : jval;
  arrivalIATA : jval;
  departureTime : jval;
  arrivalTime : jval;
  price : jval
}.

(** [AIRLINE_MAP] (both versions of the route). *)
Definition AIRLINE_MAP : jval :=
  JObj [("NK", JStr "Spirit Airlines"); ("F9", JStr "Frontier Airlines");
        ("DL", JStr "Delta Air Lines"); ("AA", JStr "American Airlines");
        ("UA", JStr "United Airlines"); ("WN", JStr "Southwest Airlines");
        ("AS", JStr "Alaska Airlines"); ("B6", JStr "JetBlue");
        ("SY", JStr "Sun Country Airlines")].

Definition empty_obj : jval := JObj [].
Definition empty_str : jval := JStr EmptyString.

(** [seg[seg.length - 1]] *)
Definition last_elem (seg : jval) : jval :=
  prop seg (to_str (js_sub (prop seg "length") (JNum 1))).

(** [seg[0] || {}] *)
Definition first_of (seg : jval) : jval := prop seg "0" ||' empty_obj.

(** [offer.itineraries?.[0]?.segments || []], given [offer.itineraries]. *)
Definition segments_of (its : jval) : jval := oget (oget its "0") "segments" ||' JArr [].

(** The Amadeus carrier code:
    [first.carrierCode || offer.validatingAirlineCodes?.[0] || ''];
    [first] and [offer] are not nullish here. *)
Definition carrier_of (offer first : jval) : jval :=
  prop first "carrierCode" ||' oget (prop offer "validatingAirlineCodes") "0" ||' empty_str.

(** [offers.map(offer => { ... })] body, lines 369-388 (and 138-160 of the
    first version, where [cur] is the raw [currency] instead of
    [safeCurrency]). *)
Definition mapOffer (carriers : jval) (cur : string) (offer : jval) : res flight :=
  let* its := js_get offer "itineraries" in
  let seg := segments_of its in
  let first := first_of seg in
  let last := last_elem seg ||' empty_obj in
  let dep := prop first "departure" ||' empty_obj in
  let arr := prop last "arrival" ||' empty_obj in
  let carrier := carrier_of offer first in
  let airlineName := prop carriers (to_str carrier) ||' prop AIRLINE_MAP (to_str carrier)
                     ||' carrier in
  Ok {| id := prop offer "id" ||'
              JStr (to_str carrier ++ "_" ++ to_str (prop first "number") ++ "_"
                    ++ to_str (prop dep "iataCode") ++ "_" ++ to_str (prop arr "iataCode"));
        airline := carrier;
        airlineName := airlineName;
        flightNumber := JStr (to_str carrier ++ to_str (prop first "number"));
        departureIATA := prop dep "iataCode" ||' empty_str;
        arrivalIATA := prop arr "iataCode" ||' empty_str;
        departureTime := prop dep "at" ||' JNull;
        arrivalTime := prop arr "at" ||' JNull;
        price := if truthy (oget (prop offer "price") "total")
                 then JStr (cur ++ " " ++ to_str (prop (prop offer "price") "total"))
                 else JNull |}.

(** [flights.filter(f => includeSet.has(f.airline.toUpperCase()))] *)
Definition include_filter (st : list string) (flights : list flight) : res (list flight) :=
  filter_res (fun f => let* a := js_upper (airline f) in Ok (set_has st a)) flights.

(** Lines 366-391 of the unified route: from the parsed Amadeus document to
    the list it answers with. *)
Definition amadeus_flights (raw : jval) (safeCurrency : string)
    (includeSet : option (list string)) : res (list flight) :=
  let* dicts := js_get raw "dictionaries" in
  let carriers := oget dicts "carriers" ||' empty_obj in
  let* data := js_get raw "data" in
  let offers := data ||' JArr [] in
  let* flights := js_map (mapOffer carriers safeCurrency) offers in
  match includeSet with
  | Some st => if set_nonempty st then include_filter st flights else Ok flights
  | None => Ok flights
  end.

(** The body of [flightsRaw.map((f, idx) => { ... })] in [flattenSerpApi]. *)
Definition serp_record (currency : string) (idx : nat) (f : jval) : res flight :=
  let* fl := js_get f "flights" in
  let segments := fl ||' JArr [] in
  let first := first_of segments in
  let last := last_elem segments ||' first in
  let depAirport := prop first "departure_airport" ||' empty_obj in
  let arrAirport := prop last "arrival_airport" ||' empty_obj in
  let* airlineCode := js_upper (prop first "airline" ||' empty_str) in
  let number := prop first "flight_number" ||' empty_str in
  let depTime := prop depAirport "time" ||' JNull in
  let arrTime := prop arrAirport "time" ||' JNull in
  let priceValue := prop f "price" ||' JNull in
  let priceStr := if truthy priceValue
                  then JStr (upper currency ++ " " ++ to_str priceValue) else JNull in
  Ok {| id := prop f "booking_token" ||'
              JStr (airlineCode ++ "_" ++ to_str number ++ "_"
                    ++ to_str (prop depAirport "id" ||' empty_str) ++ "_"
                    ++ to_str (prop arrAirport "id" ||' empty_str) ++ "_" ++ show_nat idx);
        airline := JStr airlineCode ||' empty_str;
        airlineName := JStr airlineCode ||' empty_str;
        flightNumber := if truthy (JStr airlineCode) && truthy number
                        then JStr (airlineCode ++ to_str number)
                        else number ||' empty_str;
        departureIATA := prop depAirport "id" ||' empty_str;
        arrivalIATA := prop arrAirport "id" ||' empty_str;
        departureTime := depTime;
        arrivalTime := arrTime;
        price := priceStr |}.

(** [Array.prototype.map] with the index argument. *)
Fixpoint mapi_res {B} (f : nat -> jval -> res B) (i : nat) (l : list jval) : res (list B) :=
  match l with
  | [] => Ok []
  | x :: r => let* y := f i x in let* ys := mapi_res f (S i) r in Ok (y :: ys)
  end.

Definition array_items (v : jval) : list jval :=
  match v with JArr l => l | _ => [] end.

(** [flattenSerpApi(json, currency, max, includeFilter)], lines 278-314. *)
Definition flattenSerpApi (json : jval) (currency : string) (max : jval)
    (includeFilter : option (list string)) : res (list flight) :=
  let* best := js_get json "best_flights" in
  let* other := js_get json "other_flights" in
  let flightsRaw := (array_items best ++ array_items other)%list in
  let* flights := mapi_res (serp_record currency) 0 flightsRaw in
  let* filtered := match includeFilter with
                   | Some st => if set_nonempty st then include_filter st flights
                                else Ok flights
                   | None => Ok flights
                   end in
  Ok (match max with
      | JNum m => if (0 <? m)%Z then firstn (Z.to_nat m) filtered else filtered
      | _ => filtered
      end).

(** ** Process state, environment and upstream oracle *)

(** [let cachedToken = null; let tokenExpiry = 0;] *)
Record cache : Type := Cache { cachedToken : jval; tokenExpiry : jval }.
Definition cache0 : cache := Cache JNull (JNum 0).

(** Upstream requests, in the order they are made. *)
Inductive call : Type :=
| CallToken
| CallAmadeusSearch (params : list (string * string))
| CallSerpApi (params : list (string * string)).

Record st : Type := St { st_cache : cache; st_calls : list call }.

(** State and exceptions: the cache and the call log survive a throw. *)
Definition M (A : Type) : Type := st -> res A * st.

Definition ret {A} (a : A) : M A := fun s => (Ok a, s).
Definition throw {A} (e : exn) : M A := fun s => (Throw e, s).
Definition bind {A B} (m : M A) (k : A -> M B) : M B :=
  fun s => match m s with
           | (Ok a, s') => k a s'
           | (Throw e, s') => (Throw e, s')
           end.
Notation "x <- m ;; k" := (bind m (fun x => k))
  (at level 61, m at next level, right associativity).
Definition lift {A} (r : res A) : M A := fun s => (r, s).
Definition record_call (c : call) : M unit :=
  fun s => (Ok tt, St (st_cache s) (st_calls s ++ [c])).
Definition get_cache : M cache := fun s => (Ok (st_cache s), s).
Definition put_cache (c : cache) : M unit := fun s => (Ok tt, St c (st_calls s)).

(** A [fetch] outcome: a rejected promise, or a response with its status,
    its body as text ([None]: reading it fails) and as JSON ([None]: it is
    not valid JSON, [res.json()] rejects). *)
Inductive http : Type :=
| NetFail (msg : string)
| Reply (status : Z) (text : option string) (json : option jval).

Definition http_ok (status : Z) : bool := (200 <=? status)%Z && (status <=? 299)%Z.

(** What the outside world answers during one request: the clock
    ([Math.floor(Date.now() / 1000)]) when [getToken] checks the cache and
    when it stores a new expiry, and the responses of the two upstream
    requests. *)
Record io : Type := IO {
  io_now : Z;
  io_now_after : Z;
  io_token : http;
  io_search : http
}.

(** Environment read at start-up; [PROVIDER] is already lower-cased. *)
Record env : Type := Env {
  PROVIDER : string;
  CLIENT_ID : option string;
  CLIENT_SECRET : option string;
  SERPAPI_KEY : option string;
  SERPAPI_GL : string;
  SERPAPI_HL : string
}.

(** [!x] on an optional string (absent or empty). *)
Definition missing (o : option string) : bool :=
  match o with None => true | Some s => String.eqb s EmptyString end.

(** [now < tokenExpiry - 30] *)
Definition still_valid (now : Z) (exp : jval) : bool :=
  match to_number (js_sub exp (JNum 30)) with
  | Some e => (now <? e)%Z
  | None => false
  end.

(** After the token request: lines 241-247 (unified) and 56-64 (first). *)
Definition store_token (failmsg : Z -> string) (now_after : Z) (r : http) : M jval :=
  match r with
  | NetFail m => throw (Exn "FetchError" m)
  | Reply status _ j =>
      if negb (http_ok status) then throw (Exn "Error" (failmsg status)) else
      match j with
      | None => throw (Exn "SyntaxError" "invalid json response body")
      | Some json =>
          x <- lift (js_get json "access_token") ;;
          _ <- put_cache (Cache x (js_add (JNum now_after) (prop json "expires_in"))) ;;
          c <- get_cache ;;
          ret (cachedToken c)
      end
  end.

(** [getToken()] of the unified version, lines 221-248. *)
Definition getToken (e : env) (w : io) : M jval :=
  if negb (String.eqb (PROVIDER e) "amadeus") then ret JNull else
  c <- get_cache ;;
  if truthy (cachedToken c) && still_valid (io_now w) (tokenExpiry c)
  then ret (cachedToken c) else
  if missing (CLIENT_ID e) || missing (CLIENT_SECRET e)
  then throw (Exn "Error" "Missing Amadeus credentials") else
  _ <- record_call CallToken ;;
  store_token (fun s => "Amadeus auth failed " ++ show_Z s) (io_now_after w) (io_token w).

(** [getToken()] of the first version, lines 39-65. *)
Definition getToken_first (w : io) : M jval :=
  c <- get_cache ;;
  if truthy (cachedToken c) && still_valid (io_now w) (tokenExpiry c)
  then ret (cachedToken c) else
  _ <- record_call CallToken ;;
  store_token (fun _ => "❌ Amadeus authentication failed") (io_now_after w) (io_token w).

(** ** The [/amadeus/flights] route *)

(** [req.query]: each parameter absent or one string. *)
Record query : Type := Query {
  q_origin : option string;
  q_destination : option string;
  q_date : option string;
  q_returnDate : option string;
  q_currency : option string;
  q_max : option string;
  q_include : option string
}.

Inductive body : Type :=
| BError (error : string) (detail : option jval)
| BFlights (count : Z) (flights : list flight).

Record response : Type := Response { status : Z; rbody : body }.

Definition or_default (o : option string) (d : string) : string :=
  match o with Some s => s | None => d end.

(** [x || d] on an optional string. *)
Definition or_falsy (o : option string) (d : string) : string :=
  if missing o then d else or_default o d.

(** [Math.min(parseInt(max || '20', 10) || 20, 50)] *)
Definition maxNum_of (max : option string) : Z :=
  Z.min (match parseInt (or_falsy max "20") with
         | Some n => if Z.eqb n 0 then 20 else n
         | None => 20
         end) 50.

(** [include ? new Set(include.split(',').map(s => s.trim().toUpperCase())) : null] *)
Definition includeSet_of (include : option string) : option (list string) :=
  if missing include then None
  else Some (map (fun s => upper (trim s)) (split_comma (or_default include EmptyString))).

Definition error_response (code : Z) (err : string) (detail : option jval) : M response :=
  ret (Response code (BError err detail)).

Definition flights_response (fl : list flight) : M response :=
  ret (Response 200 (BFlights (Z.of_nat (length fl)) fl)).

(** [try { ... } catch (err) { return res.status(500).json(...) }] *)
Definition catch_500 (m : M response) : M response :=
  fun s => match m s with
           | (Ok r, s') => (Ok r, s')
           | (Throw e, s') => (Ok (Response 500 (BError "Server error"
                                                  (Some (JStr (ex_message e))))), s')
           end.

(** [searchSerpApi({ origin, destination, date, returnDate, currency })],
    lines 252-275. *)
Definition searchSerpApi (e : env) (w : io) (origin destination date : string)
    (returnDate : option string) (currency : string) : M jval :=
  let key := match SERPAPI_KEY e with Some k => k | None => "undefined" end in
  let params :=
    ([("engine", "google_flights"); ("api_key", key);
     ("departure_id", upper origin); ("arrival_id", upper destination);
     ("outbound_date", date); ("adults", "1"); ("currency", upper currency);
     ("gl", SERPAPI_GL e); ("hl", SERPAPI_HL e)] ++
    (if missing returnDate then [("type", "2")]
     else [("type", "1"); ("return_date", or_default returnDate EmptyString)]))%list in
  _ <- record_call (CallSerpApi params) ;;
  match io_search w with
  | NetFail m => throw (Exn "FetchError" m)
  | Reply code text j =>
      if negb (http_ok code) then
        let detail := or_default text EmptyString in
        throw (Exn "Error" ("SerpApi error " ++ show_Z code ++ ": " ++ detail))
      else match j with
           | Some v => ret v
           | None => throw (Exn "SyntaxError" "invalid json response body")
           end
  end.

(** The unified route, lines 336-406. *)
Definition flights_route (e : env) (q : query) (w : io) : M response :=
  catch_500 (
  if missing (q_origin q) || missing (q_destination q) || missing (q_date q)
  then error_response 400 "Missing origin, destination, or date" None else
  let origin := or_default (q_origin q) EmptyString in
  let destination := or_default (q_destination q) EmptyString in
  let date := or_default (q_date q) EmptyString in
  let safeCurrency := upper (or_default (q_currency q) "USD") in
  let maxNum := maxNum_of (q_max q) in
  let includeSet := includeSet_of (q_include q) in
  if String.eqb (PROVIDER e) "amadeus" then
    if missing (CLIENT_ID e) || missing (CLIENT_SECRET e)
    then error_response 500 "Amadeus credentials missing"
           (Some (JStr "Set AMADEUS_CLIENT_ID and AMADEUS_CLIENT_SECRET or change FLYBY_PROVIDER"))
    else
    _ <- getToken e w ;;
    let params := (
      [("originLocationCode", upper origin); ("destinationLocationCode", upper destination);
       ("departureDate", date); ("adults", "1"); ("max", show_Z maxNum);
       ("currencyCode", safeCurrency)] ++
      (if missing (q_include q) then []
       else [("includedAirlineCodes", upper (or_default (q_include q) EmptyString))]))%list in
    _ <- record_call (CallAmadeusSearch params) ;;
    match io_search w with
    | NetFail m => throw (Exn "FetchError" m)
    | Reply code text j =>
        if negb (http_ok code) then
          match text with
          | Some t => error_response code "Amadeus returned an error" (Some (JStr t))
          | None => throw (Exn "Error" "body used already")
          end
        else match j with
             | None => throw (Exn "SyntaxError" "invalid json response body")
             | Some raw =>
                 flights <- lift (amadeus_flights raw safeCurrency includeSet) ;;
                 flights_response flights
             end
    end
  else if String.eqb (PROVIDER e) "serpapi" then
    if missing (SERPAPI_KEY e)
    then error_response 500 "SerpApi key missing"
           (Some (JStr "Set SERPAPI_KEY environment variable or change FLYBY_PROVIDER"))
    else
    serpJson <- searchSerpApi e w origin destination date (q_returnDate q) safeCurrency ;;
    flights <- lift (flattenSerpApi serpJson safeCurrency (JNum maxNum) includeSet) ;;
    flights_response flights
  else error_response 500 ("Unknown provider '" ++ PROVIDER e ++ "'") None).

(** Lines 133-160 of the first version: no filter, raw [currency]. *)
Definition amadeus_flights_first (raw : jval) (currency : string) : res (list flight) :=
  let* dicts := js_get raw "dictionaries" in
  let carriers := oget dicts "carriers" ||' empty_obj in
  let* data := js_get raw "data" in
  let offers := data ||' JArr [] in
  js_map (mapOffer carriers currency) offers.

(** The route of the first version, lines 85-172 (Amadeus only, no local
    filter or truncation, price in the raw [currency]). *)
Definition flights_route_first (e : env) (q : query) (w : io) : M response :=
  catch_500 (
  if missing (q_origin q) || missing (q_destination q) || missing (q_date q)
  then error_response 400 "Missing origin, destination, or date" None else
  let origin := or_default (q_origin q) EmptyString in
  let destination := or_default (q_destination q) EmptyString in
  let date := or_default (q_date q) EmptyString in
  let currency := or_default (q_currency q) "USD" in
  _ <- getToken_first w ;;
  let params := (
    [("originLocationCode", upper origin); ("destinationLocationCode", upper destination);
     ("departureDate", date); ("adults", "1"); ("max", show_Z (maxNum_of (q_max q)));
     ("currencyCode", upper currency)] ++
    (if missing (q_include q) then []
     else [("includedAirlineCodes", upper (or_default (q_include q) EmptyString))]))%list in
  _ <- record_call (CallAmadeusSearch params) ;;
  match io_search w with
  | NetFail m => throw (Exn "FetchError" m)
  | Reply code text j =>
      if negb (http_ok code) then
        match text with
        | Some t => error_response code "Amadeus returned an error" (Some (JStr t))
        | None => throw (Exn "Error" "body used already")
        end
      else match j with
           | None => throw (Exn "SyntaxError" "invalid json response body")
           | Some raw =>
               flights <- lift (amadeus_flights_first raw currency) ;;
               flights_response flights
           end
  end).

(** ** Start-up configuration *)

Definition lower_char (c : ascii) : ascii :=
  let n := nat_of_ascii c in
  if ((65 <=? n) && (n <=? 90))%nat then ascii_of_nat (n + 32)%nat else c.

(** [String.prototype.toLowerCase] on ASCII letters; other characters
    are left as they are (JS maps them by the Unicode rules). *)
Fixpoint lower (s : string) : string :=
  match s with
  | EmptyString => EmptyString
  | String c r => String (lower_char c) (lower r)
  end.

(** [process.env]: the variables that are set, with their values. *)
Definition getenv (pe : list (string * string)) (k : string) : option string :=
  match find (fun kv => String.eqb (fst kv) k) pe with
  | Some (_, v) => Some v
  | None => None
  end.

(** The constants read at start-up by the unified version, lines 190-198. *)
Definition env_of (pe : list (string * string)) : env :=
  {| PROVIDER := lower (or_falsy (getenv pe "FLYBY_PROVIDER") "serpapi");
     CLIENT_ID := getenv pe "AMADEUS_CLIENT_ID";
     CLIENT_SECRET := getenv pe "AMADEUS_CLIENT_SECRET";
     SERPAPI_KEY := getenv pe "SERPAPI_KEY";
     SERPAPI_GL := or_falsy (getenv pe "SERPAPI_GL") "us";
     SERPAPI_HL := or_falsy (getenv pe "SERPAPI_HL") "en" |}.

(** ** The health endpoints *)

(** [!!x] on an environment variable. *)
Definition present (o : option string) : jval := JBool (negb (missing o)).

(** [app.get('/')] of the unified version, lines 322-333. *)
Definition health (e : env) : jval :=
  JObj [("ok", JBool true); ("provider", JStr (PROVIDER e));
        ("endpoint", JStr "/amadeus/flights");
        ("env", JObj [("AMADEUS_CLIENT_ID_present", present (CLIENT_ID e));
                      ("AMADEUS_CLIENT_SECRET_present", present (CLIENT_SECRET e));
                      ("SERPAPI_KEY_present", present (SERPAPI_KEY e))])].

(** [app.get('/')] of the first version, lines 72-81. *)
Definition health_first (e : env) : jval :=
  JObj [("ok", JBool true); ("endpoint", JStr "/amadeus/flights");
        ("env", JObj [("CLIENT_ID_present", present (CLIENT_ID e));
                      ("CLIENT_SECRET_present", present (CLIENT_SECRET e))])].

(** The string values of a JSON document (object keys left out). *)
Fixpoint str_leaves (v : jval) : list string :=
  match v with
  | JStr s => [s]
  | JArr l => (fix go (l : list jval) : list string :=
                 match l with [] => [] | x :: r => str_leaves x ++ go r end) l
  | JObj kvs => (fix go (kvs : list (string * jval)) : list string :=
                   match kvs with [] => [] | (_, x) :: r => str_leaves x ++ go r end) kvs
  | _ => []
  end%list.

(** ** The earliest server ([src/unnamed/part_000]) *)

(** Its configuration, lines 14-18:
    [process.env.AMADEUS_BASE?.trim() || "https://test.api.amadeus.com"]
    and the two credentials. *)
Record env0 : Type := Env0 {
  AMADEUS_BASE0 : string;
  AMADEUS_CLIENT_ID0 : option string;
  AMADEUS_CLIENT_SECRET0 : option string
}.

Definition env0_of (pe : list (string * string)) : env0 :=
  {| AMADEUS_BASE0 :=
       match getenv pe "AMADEUS_BASE" with
       | Some b => if String.eqb (trim b) EmptyString then "https://test.api.amadeus.com"
                   else trim b
       | None => "https://test.api.amadeus.com"
       end;
     AMADEUS_CLIENT_ID0 := getenv pe "AMADEUS_CLIENT_ID";
     AMADEUS_CLIENT_SECRET0 := getenv pe "AMADEUS_CLIENT_SECRET" |}.

(** [app.get("/")], lines 47-53. *)
Definition health0 (e : env0) : jval :=
  JObj [("ok", JBool true); ("amadeus_base", JStr (AMADEUS_BASE0 e));
        ("endpoint", JStr "/amadeus/flights")].

(** [getAmadeusToken()], lines 25-44: no cache; the body is parsed before
    the status is looked at. *)
Definition getAmadeusToken (w : io) : M jval :=
  _ <- record_call CallToken ;;
  match io_token w with
  | NetFail m => throw (Exn "FetchError" m)
  | Reply status _ j =>
      match j with
      | None => throw (Exn "SyntaxError" "invalid json response body")
      | Some data =>
          if negb (http_ok status) then throw (Exn "Error" "Failed to get Amadeus token")
          else lift (js_get data "access_token")
      end
  end.

(** Its answers: an error object or the upstream JSON as it came. *)
Inductive body0 : Type :=
| B0Error (error : string)
| B0Json (data : jval).

Record response0 : Type := Response0 { status0 : Z; rbody0 : body0 }.

(** The search request of lines 69-74. *)
Definition search_params0 (origin destination date : string) : list (string * string) :=
  [("originLocationCode", origin); ("destinationLocationCode", destination);
   ("departureDate", date); ("adults", "1"); ("max", "5")].

(** [app.get("/amadeus/flights")], lines 56-94. *)
Definition flights_route0 (q : query) (w : io) : M response0 :=
  if missing (q_origin q) || missing (q_destination q) || missing (q_date q)
  then ret (Response0 400 (B0Error "Missing required parameters: origin, destination, date"))
  else
  let origin := or_default (q_origin q) EmptyString in
  let destination := or_default (q_destination q) EmptyString in
  let date := or_default (q_date q) EmptyString in
  let body :=
    _ <- getAmadeusToken w ;;
    _ <- record_call (CallAmadeusSearch (search_params0 origin destination date)) ;;
    match io_search w with
    | NetFail m => throw (Exn "FetchError" m)
    | Reply code _ j =>
        match j with
        | None => throw (Exn "SyntaxError" "invalid json response body")
        | Some data =>
            if negb (http_ok code) then ret (Response0 code (B0Json data))
            else ret (Response0 200 (B0Json data))
        end
    end in
  fun s => match body s with
           | (Ok r, s') => (Ok r, s')
           | (Throw _, s') => (Ok (Response0 500 (B0Error "Server error")), s')
           end.

(** * Properties *)

(** ** Generic lemmas on the result type and the state monad *)

Lemma map_res_In {A B} (f : A -> res B) l ys y :
  map_res f l = Ok ys -> In y ys -> exists x, In x l /\ f x = Ok y.
Proof.
  revert ys; induction l as [|x r IH]; simpl; intros ys H Hy.
  - inversion H; subst; contradiction.
  - destruct (f x) eqn:Hf; simpl in H; [|discriminate].
    destruct (map_res f r) as [ys'|e] eqn:Hr; simpl in H; inversion H; subst.
    destruct Hy as [<-|Hy]; [eauto|].
    destruct (IH ys' eq_refl Hy) as (x' & Hin & Hx'); eauto.
Qed.

Lemma map_res_length {A B} (f : A -> res B) l ys :
  map_res f l = Ok ys -> length ys = length l.
Proof.
  revert ys; induction l as [|x r IH]; simpl; intros ys H.
  - inversion H; reflexivity.
  - destruct (f x); simpl in H; [|discriminate].
    destruct (map_res f r) as [ys'|e] eqn:Hr; simpl in H; inversion H; subst.
    simpl; f_equal; auto.
Qed.

Lemma filter_res_incl {A} (p : A -> res bool) l ys :
  filter_res p l = Ok ys -> forall y, In y ys -> In y l /\ p y = Ok true.
Proof.
  revert ys; induction l as [|x r IH]; simpl; intros ys H y Hy.
  - inversion H; subst; contradiction.
  - destruct (p x) eqn:Hp; simpl in H; [|discriminate].
    destruct (filter_res p r) as [ys'|e] eqn:Hr; simpl in H; inversion H; subst.
    destruct a.
    + destruct Hy as [<-|Hy]; [auto|].
      destruct (IH ys' eq_refl y Hy); auto.
    + destruct (IH ys' eq_refl y Hy); auto.
Qed.


Lemma bind_ok {A B} (m : M A) (k : A -> M B) s b s' :
  bind m k s = (Ok b, s') -> exists a s1, m s = (Ok a, s1) /\ k a s1 = (Ok b, s').
Proof.
  unfold bind; destruct (m s) as [[a|e] s1]; intros H; [eauto|discriminate].
Qed.

(** ** Amadeus offer mapping *)

Lemma amadeus_flights_from_offers raw cur inc fl :
  amadeus_flights raw cur inc = Ok fl ->
  forall f, In f fl ->
  exists offer, In offer (array_items (prop raw "data" ||' JArr [])) /\
    mapOffer (oget (prop raw "dictionaries") "carriers" ||' empty_obj) cur offer = Ok f.
Proof.
  unfold amadeus_flights, js_get; destruct (nullish raw); simpl; [discriminate|].
  destruct (prop raw "data" ||' JArr []) eqn:Hd; simpl; try discriminate.
  destruct (map_res _ l) as [fl0|e] eqn:Hm; simpl; [|discriminate].
  intros H f Hf.
  assert (Hin : In f fl0).
  { destruct inc as [st'|]; [destruct (set_nonempty st')|]; try (inversion H; subst; exact Hf).
    apply (filter_res_incl _ _ _ H f Hf). }
  exact (map_res_In _ _ _ _ Hm Hin).
Qed.

Lemma amadeus_flights_first_from_offers raw cur fl :
  amadeus_flights_first raw cur = Ok fl ->
  forall f, In f fl ->
  exists offer, In offer (array_items (prop raw "data" ||' JArr [])) /\
    mapOffer (oget (prop raw "dictionaries") "carriers" ||' empty_obj) cur offer = Ok f.
Proof.
  unfold amadeus_flights_first, js_get; destruct (nullish raw); simpl; [discriminate|].
  destruct (prop raw "data" ||' JArr []) eqn:Hd; simpl; try discriminate.
  intros Hm f Hf; exact (map_res_In _ _ _ _ Hm Hf).
Qed.

Lemma mapOffer_ok carriers cur offer f :
  mapOffer carriers cur offer = Ok f ->
  nullish offer = false /\
  let first := first_of (segments_of (prop offer "itineraries")) in
  let carrier := carrier_of offer first in
  airline f = carrier /\
  airlineName f = prop carriers (to_str carrier) ||' prop AIRLINE_MAP (to_str carrier) ||' carrier /\
  flightNumber f = JStr (to_str carrier ++ to_str (prop first "number")).
Proof.
  unfold mapOffer, js_get; destruct (nullish offer) eqn:Hn; simpl; [discriminate|].
  intros H; inversion H; subst; simpl; auto.
Qed.

(** ** Sample documents used by the witnesses *)

Definition ok_or_nil {A} (r : res (list A)) : list A :=
  match r with Ok l => l | Throw _ => [] end.

Definition dummy_flight : flight :=
  Flight JUndef JUndef JUndef JUndef JUndef JUndef JUndef JUndef JUndef.

(** An Amadeus document with one offer: carrier "ZZ" (in neither
    dictionary), no flight number, no offer id. *)
Definition sample_amadeus : jval :=
  JObj [("data", JArr [JObj [("itineraries", JArr [JObj [("segments", JArr [
          JObj [("carrierCode", JStr "ZZ");
                ("departure", JObj [("iataCode", JStr "JFK"); ("at", JStr "2025-06-01T08:00")])];
          JObj [("arrival", JObj [("iataCode", JStr "LAX")])]])]]);
        ("price", JObj [("total", JStr "120.50")])]]);
        ("dictionaries", JObj [("carriers", JObj [("DL", JStr "DELTA")])])].

Definition sample_query : query :=
  Query (Some "jfk") (Some "lax") (Some "2025-06-01") None None None None.

Definition env_amadeus : env := Env "amadeus" (Some "id") (Some "secret") None "us" "en".
Definition env_serpapi : env := Env "serpapi" None None (Some "key") "us" "en".

(** ** C8: validation happens before any upstream call *)

(** C8: when origin, destination or date is absent or empty, both versions
    of the route answer 400 with an explanatory error and return the state
    untouched: no upstream call is logged and the token cache is unchanged. *)
Theorem missing_param_400 : forall e q w s,
  missing (q_origin q) || missing (q_destination q) || missing (q_date q) = true ->
  flights_route e q w s =
    (Ok (Response 400 (BError "Missing origin, destination, or date" None)), s) /\
  flights_route_first e q w s =
    (Ok (Response 400 (BError "Missing origin, destination, or date" None)), s).
Proof.
  intros e q w s H; unfold flights_route, flights_route_first, catch_500.
  rewrite H; split; reflexivity.
Qed.

Lemma missing_param_400_witness :
  flights_route env_amadeus (Query None (Some "LAX") (Some "2025-06-01") None None None None)
    (IO 0 0 (NetFail "x") (NetFail "x")) (St cache0 []) =
    (Ok (Response 400 (BError "Missing origin, destination, or date" None)), St cache0 []).
Proof.
  apply (missing_param_400 env_amadeus
           (Query None (Some "LAX") (Some "2025-06-01") None None None None)
           (IO 0 0 (NetFail "x") (NetFail "x")) (St cache0 [])).
  reflexivity.
Defined.

(** ** C9: airline display name *)

(** C9: in every record of an Amadeus response (both versions of the
    route), [airlineName] is the provider dictionary's entry for the
    carrier code if truthy, else the [AIRLINE_MAP] entry if truthy, else the
    carrier code itself; with no entry in either, it is the raw code. *)
Theorem airlineName_fallback_chain : forall raw cur inc fl f,
  (amadeus_flights raw cur inc = Ok fl \/ amadeus_flights_first raw cur = Ok fl) ->
  In f fl ->
  let carriers := oget (prop raw "dictionaries") "carriers" ||' empty_obj in
  let code := to_str (airline f) in
  airlineName f = prop carriers code ||' prop AIRLINE_MAP code ||' airline f /\
  (prop carriers code = JUndef -> prop AIRLINE_MAP code = JUndef ->
   airlineName f = airline f).
Proof.
  intros raw cur inc fl f Hfl Hin.
  assert (Ho : exists offer,
    mapOffer (oget (prop raw "dictionaries") "carriers" ||' empty_obj) cur offer = Ok f).
  { destruct Hfl as [H|H].
    - destruct (amadeus_flights_from_offers _ _ _ _ H f Hin) as (o & _ & Ho); eauto.
    - destruct (amadeus_flights_first_from_offers _ _ _ H f Hin) as (o & _ & Ho); eauto. }
  destruct Ho as (offer & Ho).
  destruct (mapOffer_ok _ _ _ _ Ho) as (_ & Ha & Hn & _).
  cbv zeta; rewrite Hn, Ha; split; [reflexivity|].
  intros H1 H2; rewrite H1, H2; reflexivity.
Qed.

Lemma airlineName_fallback_chain_witness :
  exists fl f, amadeus_flights sample_amadeus "USD" None = Ok fl /\ In f fl /\
               airlineName f = JStr "ZZ".
Proof.
  pose (fl := ok_or_nil (amadeus_flights sample_amadeus "USD" None)).
  pose (f := hd dummy_flight fl).
  assert (H1 : amadeus_flights sample_amadeus "USD" None = Ok fl) by (vm_compute; reflexivity).
  assert (H2 : In f fl) by (vm_compute; left; reflexivity).
  exists fl, f; split; [exact H1|split; [exact H2|]].
  destruct (airlineName_fallback_chain sample_amadeus "USD" None fl f (or_introl H1) H2)
    as [_ H3].
  rewrite H3 by (vm_compute; reflexivity).
  vm_compute; reflexivity.
Defined.

(** ** C10: a missing Amadeus flight number prints as "undefined" *)

(** C10: when the first segment of an Amadeus offer has no [number], the
    mapped record's [flightNumber] is the carrier code followed by the text
    "undefined", and a synthesized id (no offer id) embeds "_undefined_"
    right after the carrier code. *)
Theorem flightNumber_missing_number : forall carriers cur offer f,
  mapOffer carriers cur offer = Ok f ->
  prop (first_of (segments_of (prop offer "itineraries"))) "number" = JUndef ->
  flightNumber f = JStr (to_str (airline f) ++ "undefined") /\
  (truthy (prop offer "id") = false ->
   exists rest, id f = JStr (to_str (airline f) ++ "_undefined_" ++ rest)).
Proof.
  intros carriers cur offer f Hm Hnum.
  unfold mapOffer, js_get in Hm; destruct (nullish offer); simpl in Hm; [discriminate|].
  injection Hm as <-; simpl; rewrite Hnum; split; [reflexivity|].
  intros Hid; unfold js_or at 1; rewrite Hid; simpl; eexists; reflexivity.
Qed.

Lemma flightNumber_missing_number_witness :
  exists fl f, amadeus_flights sample_amadeus "USD" None = Ok fl /\ In f fl /\
    flightNumber f = JStr "ZZundefined" /\ id f = JStr "ZZ_undefined_JFK_LAX".
Proof.
  pose (fl := ok_or_nil (amadeus_flights sample_amadeus "USD" None)).
  pose (f := hd dummy_flight fl).
  assert (H1 : amadeus_flights sample_amadeus "USD" None = Ok fl) by (vm_compute; reflexivity).
  assert (H2 : In f fl) by (vm_compute; left; reflexivity).
  destruct (amadeus_flights_from_offers _ _ _ _ H1 f H2) as (offer & Hin & Hm).
  assert (Hoff : offer = hd JUndef (array_items (prop sample_amadeus "data" ||' JArr [])))
    by (vm_compute in Hin; destruct Hin as [<-|[]]; reflexivity).
  subst offer.
  destruct (flightNumber_missing_number _ _ _ _ Hm) as [H3 _]; [vm_compute; reflexivity|].
  exists fl, f; split; [exact H1|split; [exact H2|split]].
  - rewrite H3; vm_compute; reflexivity.
  - vm_compute; reflexivity.
Defined.

(** ** Token cache *)

Lemma app_cons_neq {A} (l : list A) (x : A) : l <> (l ++ [x])%list.
Proof. intros H; apply (f_equal (@length A)) in H; rewrite length_app in H; simpl in H; lia. Qed.

Lemma still_valid_num now exp x :
  to_number exp = Some x -> (now < x - 30)%Z -> still_valid now exp = true.
Proof.
  intros Hx Hlt; unfold still_valid, js_sub; rewrite Hx; simpl.
  apply Z.ltb_lt; exact Hlt.
Qed.

Lemma store_token_cases msg now r s res s1 :
  store_token msg now r s = (res, s1) ->
  (st_cache s1 = st_cache s /\ st_calls s1 = st_calls s /\ (exists ex, res = Throw ex) /\
     (forall code text j, r = Reply code text j -> http_ok code = false ->
        res = Throw (Exn "Error" (msg code)))) \/
  (exists code text json, r = Reply code text (Some json) /\ http_ok code = true /\
     res = Ok (prop json "access_token") /\ st_calls s1 = st_calls s /\
     st_cache s1 = Cache (prop json "access_token") (js_add (JNum now) (prop json "expires_in"))).
Proof.
  unfold store_token; destruct r as [m|code text j].
  - intros H; inversion H; subst; left; repeat split; eauto; intros; discriminate.
  - destruct (http_ok code) eqn:Hok; simpl.
    + destruct j as [json|].
      * unfold bind, lift, js_get; destruct (nullish json); simpl; intros H; inversion H; subst.
        -- left; repeat split; eauto; intros c t j' Hr Hc; inversion Hr; subst; congruence.
        -- right; exists code, text, json; repeat split; auto.
      * intros H; inversion H; subst; left; repeat split; eauto.
        intros c t j' Hr Hc; inversion Hr; subst; congruence.
    + intros H; inversion H; subst; left; repeat split; eauto.
      intros c t j' Hr Hc; inversion Hr; subst; reflexivity.
Qed.

Lemma getToken_cases e w s r s1 :
  getToken e w s = (r, s1) ->
  (s1 = s /\ ((PROVIDER e <> "amadeus" /\ r = Ok JNull) \/
              r = Ok (cachedToken (st_cache s)) \/ exists ex, r = Throw ex)) \/
  (PROVIDER e = "amadeus" /\ st_calls s1 = (st_calls s ++ [CallToken])%list /\
   store_token (fun c => "Amadeus auth failed " ++ show_Z c) (io_now_after w) (io_token w)
     (St (st_cache s) (st_calls s ++ [CallToken])) = (r, s1)).
Proof.
  unfold getToken.
  destruct (String.eqb (PROVIDER e) "amadeus") eqn:Hp; simpl.
  - apply String.eqb_eq in Hp.
    unfold bind, get_cache; simpl.
    destruct (truthy (cachedToken (st_cache s)) && still_valid (io_now w) (tokenExpiry (st_cache s))).
    + intros H; inversion H; subst; left; auto.
    + destruct (missing (CLIENT_ID e) || missing (CLIENT_SECRET e)).
      * intros H; inversion H; subst; left; eauto 6.
      * unfold record_call; simpl; intros H; right; split; [exact Hp|split; [|exact H]].
        apply store_token_cases in H.
        destruct H as [(_ & Hc & _)|(? & ? & ? & _ & _ & _ & Hc & _)]; exact Hc.
  - apply String.eqb_neq in Hp.
    intros H; inversion H; subst; left; auto.
Qed.

Lemma getToken_value e w s v s1 :
  getToken e w s = (Ok v, s1) ->
  (PROVIDER e <> "amadeus" /\ v = JNull /\ s1 = s) \/ v = cachedToken (st_cache s1).
Proof.
  intros H; apply getToken_cases in H.
  destruct H as [(-> & [(Hp & Hr)|[Hr|(ex & Hr)]])|(_ & _ & H)].
  - inversion Hr; subst; left; auto.
  - inversion Hr; subst; right; reflexivity.
  - discriminate.
  - apply store_token_cases in H.
    destruct H as [(_ & _ & (ex & Hr) & _)|(? & ? & json & _ & _ & Hr & _ & Hc)].
    + discriminate.
    + inversion Hr; subst; rewrite Hc; right; reflexivity.
Qed.

Lemma getToken_other_provider e w s :
  PROVIDER e <> "amadeus" -> getToken e w s = (Ok JNull, s).
Proof.
  intros Hp; unfold getToken; apply String.eqb_neq in Hp; rewrite Hp; reflexivity.
Qed.

Lemma getToken_cached e w s :
  PROVIDER e = "amadeus" ->
  truthy (cachedToken (st_cache s)) && still_valid (io_now w) (tokenExpiry (st_cache s)) = true ->
  getToken e w s = (Ok (cachedToken (st_cache s)), s).
Proof.
  intros Hp Hv; unfold getToken; rewrite Hp; simpl.
  unfold bind, get_cache; simpl; rewrite Hv; reflexivity.
Qed.

Lemma getToken_first_value w s v s1 :
  getToken_first w s = (Ok v, s1) -> v = cachedToken (st_cache s1).
Proof.
  unfold getToken_first, bind, get_cache; simpl.
  destruct (truthy (cachedToken (st_cache s)) && still_valid (io_now w) (tokenExpiry (st_cache s))).
  - intros H; inversion H; reflexivity.
  - unfold record_call; simpl; intros H; apply store_token_cases in H.
    destruct H as [(_ & _ & (ex & Hr) & _)|(? & ? & json & _ & _ & Hr & _ & Hc)].
    + discriminate.
    + inversion Hr; subst; rewrite Hc; reflexivity.
Qed.

(** C6: if a first call of the token accessor returned [v] and left a
    truthy cached token whose expiry [x] is more than 30 seconds after the
    time [io_now w2] of a second call, the second call returns the same [v]
    and leaves the state (cache and call log) unchanged: no token request
    is made.  Stated for the unified [getToken] and for the first
    version's [getToken_first]. *)
Theorem token_reuse :
  (forall e w1 w2 s v s1 x,
     getToken e w1 s = (Ok v, s1) ->
     truthy (cachedToken (st_cache s1)) = true ->
     to_number (tokenExpiry (st_cache s1)) = Some x -> (io_now w2 < x - 30)%Z ->
     getToken e w2 s1 = (Ok v, s1)) /\
  (forall w1 w2 s v s1 x,
     getToken_first w1 s = (Ok v, s1) ->
     truthy (cachedToken (st_cache s1)) = true ->
     to_number (tokenExpiry (st_cache s1)) = Some x -> (io_now w2 < x - 30)%Z ->
     getToken_first w2 s1 = (Ok v, s1)).
Proof.
  split.
  - intros e w1 w2 s v s1 x H1 Ht Hx Hlt.
    destruct (String.eqb (PROVIDER e) "amadeus") eqn:Hp.
    + apply String.eqb_eq in Hp.
      apply getToken_value in H1; destruct H1 as [(Hn & _)| ->]; [contradiction|].
      apply getToken_cached; [exact Hp|].
      rewrite Ht; simpl; exact (still_valid_num _ _ _ Hx Hlt).
    + apply String.eqb_neq in Hp.
      rewrite (getToken_other_provider e w1 s Hp) in H1; inversion H1; subst.
      apply getToken_other_provider; exact Hp.
  - intros w1 w2 s v s1 x H1 Ht Hx Hlt.
    apply getToken_first_value in H1; subst v.
    unfold getToken_first, bind, get_cache; simpl.
    rewrite Ht, (still_valid_num _ _ _ Hx Hlt); reflexivity.
Qed.

Definition token_reply : http :=
  Reply 200 None (Some (JObj [("access_token", JStr "tok"); ("expires_in", JNum 1799)])).

Lemma token_reuse_witness :
  getToken env_amadeus (IO 1000 1001 (NetFail "offline") (NetFail "offline"))
    (St (Cache (JStr "tok") (JNum 2800)) [CallToken]) =
    (Ok (JStr "tok"), St (Cache (JStr "tok") (JNum 2800)) [CallToken]) /\
  getToken_first (IO 1000 1001 (NetFail "offline") (NetFail "offline"))
    (St (Cache (JStr "tok") (JNum 2800)) [CallToken]) =
    (Ok (JStr "tok"), St (Cache (JStr "tok") (JNum 2800)) [CallToken]).
Proof.
  split.
  - apply (proj1 token_reuse env_amadeus (IO 1000 1001 token_reply (NetFail "x"))
             (IO 1000 1001 (NetFail "offline") (NetFail "offline"))
             (St cache0 []) (JStr "tok") (St (Cache (JStr "tok") (JNum 2800)) [CallToken]) 2800%Z).
    + vm_compute; reflexivity.
    + reflexivity.
    + reflexivity.
    + cbn; lia.
  - apply (proj2 token_reuse (IO 1000 1001 token_reply (NetFail "x"))
             (IO 1000 1001 (NetFail "offline") (NetFail "offline"))
             (St cache0 []) (JStr "tok") (St (Cache (JStr "tok") (JNum 2800)) [CallToken]) 2800%Z).
    + vm_compute; reflexivity.
    + reflexivity.
    + reflexivity.
    + cbn; lia.
Defined.



(** ** Shape of a successful answer of the unified route *)

Lemma catch_500_flights m s c n fl s' :
  catch_500 m s = (Ok (Response c (BFlights n fl)), s') ->
  m s = (Ok (Response c (BFlights n fl)), s').
Proof. unfold catch_500; destruct (m s) as [[r|ex] s1]; intros H; inversion H; subst; auto. Qed.

Lemma searchSerpApi_ok e w o d dt rd cur s v s1 :
  searchSerpApi e w o d dt rd cur s = (Ok v, s1) ->
  exists code text, io_search w = Reply code text (Some v).
Proof.
  unfold searchSerpApi; intros H; apply bind_ok in H; destruct H as (u & s2 & _ & H).
  destruct (io_search w) as [m|code text j]; [inversion H|].
  destruct (negb (http_ok code)); [inversion H|].
  destruct j; inversion H; subst; eauto.
Qed.

(** Every answer of the unified route that carries a flight list comes from
    one of the two normalizers run on the parsed upstream document, with
    [count] equal to the list's length. *)
Lemma route_flights e q w s c n fl s' :
  flights_route e q w s = (Ok (Response c (BFlights n fl)), s') ->
  n = Z.of_nat (length fl) /\
  ((PROVIDER e = "amadeus" /\
    exists code text raw, io_search w = Reply code text (Some raw) /\
      amadeus_flights raw (upper (or_default (q_currency q) "USD"))
                      (includeSet_of (q_include q)) = Ok fl) \/
   (PROVIDER e = "serpapi" /\
    exists code text json, io_search w = Reply code text (Some json) /\
      flattenSerpApi json (upper (or_default (q_currency q) "USD"))
                     (JNum (maxNum_of (q_max q))) (includeSet_of (q_include q)) = Ok fl)).
Proof.
  intros H; apply catch_500_flights in H.
  destruct (missing (q_origin q) || missing (q_destination q) || missing (q_date q));
    [inversion H|].
  cbv zeta in H.
  destruct (String.eqb (PROVIDER e) "amadeus") eqn:Hp.
  - apply String.eqb_eq in Hp.
    destruct (missing (CLIENT_ID e) || missing (CLIENT_SECRET e)); [inversion H|].
    apply bind_ok in H; destruct H as (tok & s1 & _ & H).
    apply bind_ok in H; destruct H as (u & s2 & _ & H).
    destruct (io_search w) as [m|code text j] eqn:Hs; [inversion H|].
    destruct (negb (http_ok code)); [destruct text; inversion H|].
    destruct j as [raw|]; [|inversion H].
    apply bind_ok in H; destruct H as (fl' & s3 & Hl & H).
    unfold lift in Hl; inversion Hl; subst.
    unfold flights_response, ret in H; inversion H; subst.
    split; [reflexivity|left; split; [exact Hp|eauto 6]].
  - destruct (String.eqb (PROVIDER e) "serpapi") eqn:Hp'; [|inversion H].
    apply String.eqb_eq in Hp'.
    destruct (missing (SERPAPI_KEY e)); [inversion H|].
    apply bind_ok in H; destruct H as (json & s1 & Hj & H).
    apply searchSerpApi_ok in Hj; destruct Hj as (code & text & Hs).
    apply bind_ok in H; destruct H as (fl' & s3 & Hl & H).
    unfold lift in Hl; inversion Hl; subst.
    unfold flights_response, ret in H; inversion H; subst.
    split; [reflexivity|right; split; [exact Hp'|eauto 6]].
Qed.

(** ** Allow-list filter *)

Lemma split_comma_nonempty s : split_comma s <> [].
Proof.
  induction s as [|c r IH]; simpl; [discriminate|].
  destruct (split_comma r) as [|w ws]; [contradiction|].
  destruct (Ascii.eqb c ","); discriminate.
Qed.

Lemma in_firstn {A} n (l : list A) x : In x (firstn n l) -> In x l.
Proof.
  intros H; rewrite <- (firstn_skipn n l); apply in_or_app; left; exact H.
Qed.

Lemma include_filter_sound st fl fl' :
  include_filter st fl = Ok fl' ->
  forall f, In f fl' -> exists a, airline f = JStr a /\ set_has st (upper a) = true.
Proof.
  intros H f Hf; destruct (filter_res_incl _ _ _ H f Hf) as [_ Hp].
  destruct (airline f) eqn:Ha; simpl in Hp; try discriminate.
  inversion Hp; eauto.
Qed.

Lemma amadeus_flights_filtered raw cur st fl :
  set_nonempty st = true -> amadeus_flights raw cur (Some st) = Ok fl ->
  forall f, In f fl -> exists a, airline f = JStr a /\ set_has st (upper a) = true.
Proof.
  intros Hne; unfold amadeus_flights, js_get; destruct (nullish raw); simpl; [discriminate|].
  destruct (prop raw "data" ||' JArr []); simpl; try discriminate.
  destruct (map_res _ l) as [fl0|ex]; simpl; [|discriminate].
  rewrite Hne; apply include_filter_sound.
Qed.

Lemma flattenSerpApi_filtered json cur max st fl :
  set_nonempty st = true -> flattenSerpApi json cur max (Some st) = Ok fl ->
  forall f, In f fl -> exists a, airline f = JStr a /\ set_has st (upper a) = true.
Proof.
  intros Hne; unfold flattenSerpApi, js_get.
  destruct (nullish json); simpl; [discriminate|].
  destruct (mapi_res _ _ _) as [fl0|ex]; simpl; [|discriminate].
  rewrite Hne; destruct (include_filter st fl0) as [fl1|ex] eqn:Hf; simpl; [|discriminate].
  intros H f Hin; inversion H; subst.
  apply (include_filter_sound _ _ _ Hf).
  destruct max as [| | |m| | | |]; auto.
  destruct (0 <? m)%Z; [exact (in_firstn _ _ _ Hin)|exact Hin].
Qed.

(** C5: when the request carries a non-empty [include] list, every record
    of a successful answer of the unified route (either provider) has a
    string airline code whose upper-case form belongs to the set built
    from [include] (its comma-separated items, trimmed and upper-cased). *)
Theorem include_filter_members : forall e q w s c n fl s' inc,
  flights_route e q w s = (Ok (Response c (BFlights n fl)), s') ->
  q_include q = Some inc -> inc <> EmptyString ->
  forall f, In f fl ->
  exists a, airline f = JStr a /\
            set_has (map (fun x => upper (trim x)) (split_comma inc)) (upper a) = true.
Proof.
  intros e q w s c n fl s' inc H Hq Hne f Hf.
  assert (Hset : includeSet_of (q_include q) =
                 Some (map (fun x => upper (trim x)) (split_comma inc))).
  { unfold includeSet_of; rewrite Hq; simpl.
    apply String.eqb_neq in Hne; rewrite Hne; reflexivity. }
  assert (Hsz : set_nonempty (map (fun x => upper (trim x)) (split_comma inc)) = true).
  { destruct (split_comma inc) eqn:Hs; [exact (False_ind _ (split_comma_nonempty _ Hs))|].
    reflexivity. }
  apply route_flights in H; destruct H as (_ & [(_ & code & text & raw & _ & Hf')|
                                                (_ & code & text & json & _ & Hf')]);
    rewrite Hset in Hf'.
  - exact (amadeus_flights_filtered _ _ _ _ Hsz Hf' f Hf).
  - exact (flattenSerpApi_filtered _ _ _ _ _ Hsz Hf' f Hf).
Qed.

(** A SerpApi document: one Delta result in [best_flights], one American
    result in [other_flights]. *)
Definition sample_serp : jval :=
  JObj [("best_flights", JArr [JObj [
           ("flights", JArr [JObj [("airline", JStr "dl"); ("flight_number", JStr "100");
              ("departure_airport", JObj [("id", JStr "JFK"); ("time", JStr "2025-06-01 08:00")]);
              ("arrival_airport", JObj [("id", JStr "LAX"); ("time", JStr "2025-06-01 11:00")])]]);
           ("price", JNum 200)]]);
        ("other_flights", JArr [JObj [
           ("flights", JArr [JObj [("airline", JStr "AA"); ("flight_number", JStr "7")]]);
           ("price", JNum 150)]])].

Definition serp_io (d : jval) : io := IO 0 0 (NetFail "unused") (Reply 200 None (Some d)).

Definition response_flights (r : res response * st) : list flight :=
  match fst r with Ok (Response _ (BFlights _ l)) => l | _ => [] end.

Lemma include_filter_members_witness :
  exists c n fl s' f,
    flights_route env_serpapi
      (Query (Some "jfk") (Some "lax") (Some "2025-06-01") None None None (Some " dl"))
      (serp_io sample_serp) (St cache0 []) = (Ok (Response c (BFlights n fl)), s') /\
    In f fl /\ airline f = JStr "DL".
Proof.
  pose (q := Query (Some "jfk") (Some "lax") (Some "2025-06-01") None None None (Some " dl")).
  pose (r := flights_route env_serpapi q (serp_io sample_serp) (St cache0 [])).
  pose (fl := response_flights r).
  assert (H1 : r = (Ok (Response 200 (BFlights 1 fl)), snd r)) by (vm_compute; reflexivity).
  assert (H2 : In (hd dummy_flight fl) fl) by (vm_compute; left; reflexivity).
  exists 200%Z, 1%Z, fl, (snd r), (hd dummy_flight fl).
  split; [exact H1|split; [exact H2|]].
  destruct (include_filter_members env_serpapi q (serp_io sample_serp) (St cache0 [])
              200%Z 1%Z fl (snd r) " dl" H1 eq_refl ltac:(discriminate)
              (hd dummy_flight fl) H2) as (a & Ha & _).
  rewrite Ha; vm_compute in Ha; symmetry; exact Ha.
Defined.

(** ** Result count *)

Lemma mapi_res_length {B} (f : nat -> jval -> res B) i l ys :
  mapi_res f i l = Ok ys -> length ys = length l.
Proof.
  revert i ys; induction l as [|x r IH]; simpl; intros i ys H.
  - inversion H; reflexivity.
  - destruct (f i x); simpl in H; [|discriminate].
    destruct (mapi_res f (S i) r) as [ys'|e] eqn:Hr; simpl in H; inversion H; subst.
    simpl; f_equal; eauto.
Qed.






Definition amadeus_io (d : jval) : io := IO 1000 1001 token_reply (Reply 200 None (Some d)).













(** ** Upstream error forwarding *)

Definition quota_reply : http := Reply 429 (Some "quota exceeded") None.

(** C2 (code bug): at the same non-success upstream answer (status 429,
    body "quota exceeded"), the Amadeus path answers 429 with the raw body
    as [detail], while the SerpApi path throws inside [searchSerpApi] and
    the catch-all answers 500 with detail "SerpApi error 429: quota
    exceeded". *)
Theorem upstream_error_status : 
  fst (flights_route env_serpapi sample_query (IO 0 0 (NetFail "unused") quota_reply)
                     (St cache0 [])) =
    Ok (Response 500 (BError "Server error" (Some (JStr "SerpApi error 429: quota exceeded")))) /\
  fst (flights_route env_amadeus sample_query (IO 1000 1001 token_reply quota_reply)
                     (St cache0 [])) =
    Ok (Response 429 (BError "Amadeus returned an error" (Some (JStr "quota exceeded")))).
Proof. split; vm_compute; reflexivity. Qed.

(** ** Record ids *)










Section IdUniqueness.
(** [raw] is the flattened candidate list of one SerpApi document. *)
Variable raw : list jval.




End IdUniqueness.

























(** ** Totality of normalization *)









































(** * Further properties of the code *)

(** ** Reading [max] back: [parseInt] on decimal text *)











(** ** The [include] allow-list *)

Lemma upper_char_idem c : upper_char (upper_char c) = upper_char c.
Proof. destruct c as [[] [] [] [] [] [] [] []]; vm_compute; reflexivity. Qed.

Lemma upper_idem s : upper (upper s) = upper s.
Proof. induction s as [|c r IH]; simpl; [reflexivity|]; rewrite upper_char_idem, IH; reflexivity. Qed.

Lemma upper_empty s : String.eqb (upper s) EmptyString = String.eqb s EmptyString.
Proof. destruct s; reflexivity. Qed.







(** ** The SerpApi request *)

Lemma searchSerpApi_state e w o d dt rd cur s r s1 :
  searchSerpApi e w o d dt rd cur s = (r, s1) ->
  exists params,
    s1 = St (st_cache s) (st_calls s ++ [CallSerpApi params])%list /\
    params = ([("engine", "google_flights");
               ("api_key", match SERPAPI_KEY e with Some k => k | None => "undefined" end);
               ("departure_id", upper o); ("arrival_id", upper d);
               ("outbound_date", dt); ("adults", "1"); ("currency", upper cur);
               ("gl", SERPAPI_GL e); ("hl", SERPAPI_HL e)] ++
              (if missing rd then [("type", "2")]
               else [("type", "1"); ("return_date", or_default rd EmptyString)]))%list.
Proof.
  unfold searchSerpApi, bind, record_call; cbn [fst snd].
  destruct (io_search w) as [m|code text j]; [intros H; inversion H; subst; eauto|].
  destruct (negb (http_ok code)); [intros H; inversion H; subst; eauto|].
  destruct j; intros H; inversion H; subst; eauto.
Qed.



(** ** Upstream requests made by each provider branch of the route *)

Lemma catch_500_state m s r s1 :
  catch_500 m s = (r, s1) -> exists r', m s = (r', s1).
Proof. unfold catch_500; destruct (m s) as [[a|ex] s']; intros H; inversion H; subst; eauto. Qed.

Lemma getToken_calls e w s r s1 :
  getToken e w s = (r, s1) ->
  st_calls s1 = st_calls s \/ st_calls s1 = (st_calls s ++ [CallToken])%list.
Proof.
  intros H; apply getToken_cases in H.
  destruct H as [(-> & _)|(_ & Hc & _)]; auto.
Qed.

Lemma getToken_calls_cache e w s r s1 :
  getToken e w s = (r, s1) -> st_calls s1 = st_calls s -> st_cache s1 = st_cache s.
Proof.
  intros H Hc; apply getToken_cases in H.
  destruct H as [(-> & _)|(_ & Hc' & _)]; [reflexivity|].
  rewrite Hc in Hc'; exfalso; exact (app_cons_neq _ _ Hc').
Qed.

(** With [FLYBY_PROVIDER=serpapi] the route never touches the Amadeus
    token cache and never calls Amadeus: each request makes at most one
    upstream request, to SerpApi. *)
Theorem serpapi_route_calls : forall e q w s r s1,
  PROVIDER e = "serpapi" ->
  flights_route e q w s = (r, s1) ->
  st_cache s1 = st_cache s /\
  (st_calls s1 = st_calls s \/
   exists params, st_calls s1 = (st_calls s ++ [CallSerpApi params])%list).
Proof.
  intros e q w s r s1 Hp H.
  apply catch_500_state in H; destruct H as (r' & H).
  destruct (missing (q_origin q) || missing (q_destination q) || missing (q_date q));
    [inversion H; auto|].
  cbv zeta in H; rewrite Hp in H; cbn [String.eqb Ascii.eqb Bool.eqb andb] in H.
  destruct (missing (SERPAPI_KEY e)); [inversion H; auto|].
  unfold bind at 1 in H.
  destruct (searchSerpApi _ _ _ _ _ _ _ s) as [[v|ex] s2] eqn:Hs.
  - apply searchSerpApi_state in Hs; destruct Hs as (params & -> & _).
    unfold bind, lift in H; destruct (flattenSerpApi _ _ _ _);
      unfold flights_response, ret in H; inversion H; subst; simpl; eauto.
  - apply searchSerpApi_state in Hs; destruct Hs as (params & -> & _).
    inversion H; subst; simpl; eauto.
Qed.

Lemma serpapi_route_calls_witness :
  st_cache (snd (flights_route env_serpapi sample_query (serp_io sample_serp) (St cache0 []))) =
    cache0 /\
  (st_calls (snd (flights_route env_serpapi sample_query (serp_io sample_serp) (St cache0 []))) = [] \/
   exists params,
     st_calls (snd (flights_route env_serpapi sample_query (serp_io sample_serp) (St cache0 []))) =
       [CallSerpApi params]).
Proof.
  exact (serpapi_route_calls env_serpapi sample_query (serp_io sample_serp) (St cache0 [])
           _ _ eq_refl (surjective_pairing _)).
Defined.

(** With [FLYBY_PROVIDER=amadeus] the route never calls SerpApi: each
    request adds to the call log nothing, one token request, one search
    request, or a token request followed by one search request; the search
    asks for [max = maxNum] (decimal) offers in the upper-cased currency. *)
Theorem amadeus_route_calls : forall e q w s r s1,
  PROVIDER e = "amadeus" ->
  flights_route e q w s = (r, s1) ->
  exists l, st_calls s1 = (st_calls s ++ l)%list /\
    (l = [] \/ l = [CallToken] \/
     exists params,
       (l = [CallAmadeusSearch params] \/ l = [CallToken; CallAmadeusSearch params]) /\
       getenv params "max" = Some (show_Z (maxNum_of (q_max q))) /\
       getenv params "currencyCode" = Some (upper (or_default (q_currency q) "USD"))).
Proof.
  intros e q w s r s1 Hp H.
  apply catch_500_state in H; destruct H as (r' & H).
  destruct (missing (q_origin q) || missing (q_destination q) || missing (q_date q));
    [inversion H; subst; exists []; rewrite app_nil_r; auto|].
  cbv zeta in H; rewrite Hp in H; cbn [String.eqb Ascii.eqb Bool.eqb andb] in H.
  destruct (missing (CLIENT_ID e) || missing (CLIENT_SECRET e));
    [inversion H; subst; exists []; rewrite app_nil_r; auto|].
  unfold bind at 1 in H.
  destruct (getToken e w s) as [[tok|ex] s2] eqn:Hg;
    pose proof (getToken_calls _ _ _ _ _ Hg) as Hc.
  - unfold bind at 1, record_call in H.
    match type of H with context [CallAmadeusSearch ?X] => set (params := X) in H end.
    assert (Hs1 : s1 = St (st_cache s2) (st_calls s2 ++ [CallAmadeusSearch params])%list).
    { unfold error_response, flights_response, ret, throw, bind, lift in H.
      destruct (io_search w) as [m|code text j]; [inversion H; reflexivity|].
      destruct (negb (http_ok code)); [destruct text; inversion H; reflexivity|].
      destruct j as [raw|]; [|inversion H; reflexivity].
      destruct (amadeus_flights _ _ _); inversion H; reflexivity. }
    assert (Hm : getenv params "max" = Some (show_Z (maxNum_of (q_max q))) /\
                 getenv params "currencyCode" = Some (upper (or_default (q_currency q) "USD")))
      by (subst params; split; reflexivity).
    subst s1; cbn [st_calls]; destruct Hc as [-> | ->].
    + exists [CallAmadeusSearch params]; split; [reflexivity|]; right; right; eauto.
    + exists [CallToken; CallAmadeusSearch params]; split; [rewrite <- app_assoc; reflexivity|].
      right; right; eauto.
  - inversion H; subst; destruct Hc as [-> | ->].
    + exists []; rewrite app_nil_r; auto.
    + exists [CallToken]; auto.
Qed.

Lemma amadeus_route_calls_witness :
  exists l,
    st_calls (snd (flights_route env_amadeus sample_query (amadeus_io sample_amadeus)
                                 (St cache0 []))) = ([] ++ l)%list /\
    (l = [] \/ l = [CallToken] \/
     exists params,
       (l = [CallAmadeusSearch params] \/ l = [CallToken; CallAmadeusSearch params]) /\
       getenv params "max" = Some (show_Z (maxNum_of (q_max sample_query))) /\
       getenv params "currencyCode" = Some (upper (or_default (q_currency sample_query) "USD"))).
Proof.
  exact (amadeus_route_calls env_amadeus sample_query (amadeus_io sample_amadeus) (St cache0 [])
           _ _ eq_refl (surjective_pairing _)).
Defined.

(** ** Configuration errors *)

Definition params_present (q : query) : bool :=
  negb (missing (q_origin q) || missing (q_destination q) || missing (q_date q)).



(** ** Currency in price strings *)

Lemma mapOffer_price carriers cur offer f :
  mapOffer carriers cur offer = Ok f ->
  price f = JNull \/ exists t, price f = JStr (cur ++ " " ++ t).
Proof.
  unfold mapOffer, js_get; destruct (nullish offer); simpl; [discriminate|].
  intros H; inversion H; subst; simpl; destruct (truthy _); eauto.
Qed.

Lemma serp_record_price cur i g f :
  serp_record cur i g = Ok f ->
  price f = JNull \/ exists t, price f = JStr (upper cur ++ " " ++ t).
Proof.
  unfold serp_record, js_get; destruct (nullish g); simpl; [discriminate|].
  destruct (js_upper _); simpl; [|discriminate].
  intros H; inversion H; subst; simpl; destruct (truthy (prop g "price" ||' JNull)); eauto.
Qed.

Lemma mapi_res_In {B} (f : nat -> jval -> res B) i l ys y :
  mapi_res f i l = Ok ys -> In y ys -> exists k x, In x l /\ f k x = Ok y.
Proof.
  revert i ys; induction l as [|x r IH]; simpl; intros i ys H Hy.
  - inversion H; subst; contradiction.
  - destruct (f i x) eqn:Hf; simpl in H; [|discriminate].
    destruct (mapi_res f (S i) r) as [ys'|e] eqn:Hr; simpl in H; inversion H; subst.
    destruct Hy as [<-|Hy]; [eauto|].
    destruct (IH _ _ Hr Hy) as (k & x' & Hin & Hx'); eauto.
Qed.

Lemma flattenSerpApi_In json cur max inc fl f :
  flattenSerpApi json cur max inc = Ok fl -> In f fl ->
  exists k g, serp_record cur k g = Ok f.
Proof.
  unfold flattenSerpApi, js_get; destruct (nullish json); simpl; [discriminate|].
  destruct (mapi_res _ 0 _) as [all|ex] eqn:Hm; simpl; [|discriminate].
  intros H Hf.
  assert (Hin : In f all).
  { destruct inc as [st'|]; [destruct (set_nonempty st')|].
    all: match type of H with
         | res_bind ?m _ = _ => destruct m as [flt|ex] eqn:Hflt; simpl in H; [|discriminate]
         end.
    all: try (inversion Hflt; subst).
    all: assert (Hf' : In f flt)
           by (inversion H; subst; destruct max as [| | |m| | | |]; auto;
               destruct (0 <? m)%Z; auto; apply (in_firstn _ _ _ Hf)).
    all: try exact Hf'.
    apply (filter_res_incl _ _ _ Hflt f Hf'). }
  destruct (mapi_res_In _ _ _ _ _ Hm Hin) as (k & g & _ & Hg); eauto.
Qed.

Lemma route_flights_first e q w s c n fl s' :
  flights_route_first e q w s = (Ok (Response c (BFlights n fl)), s') ->
  exists raw, amadeus_flights_first raw (or_default (q_currency q) "USD") = Ok fl.
Proof.
  intros H; apply catch_500_flights in H.
  destruct (missing (q_origin q) || missing (q_destination q) || missing (q_date q));
    [inversion H|].
  cbv zeta in H.
  apply bind_ok in H; destruct H as (tok & s1 & _ & H).
  apply bind_ok in H; destruct H as (u & s2 & _ & H).
  destruct (io_search w) as [m|code text j]; [inversion H|].
  destruct (negb (http_ok code)); [destruct text; inversion H|].
  destruct j as [raw|]; [|inversion H].
  apply bind_ok in H; destruct H as (fl' & s3 & Hl & H).
  unfold lift in Hl; inversion Hl; subst.
  unfold flights_response, ret in H; inversion H; subst; eauto.
Qed.

(** Price strings carry the currency as the request gave it in the first
    version of the route (no upper-casing: [currency=usd] gives prices
    ["usd 120.50"] while [currencyCode=USD] is sent upstream), and
    upper-cased in the unified route, for both providers. *)
Theorem price_currency : 
  (forall e q w s c n fl s' f,
     flights_route_first e q w s = (Ok (Response c (BFlights n fl)), s') -> In f fl ->
     price f = JNull \/ exists t, price f = JStr (or_default (q_currency q) "USD" ++ " " ++ t)) /\
  (forall e q w s c n fl s' f,
     flights_route e q w s = (Ok (Response c (BFlights n fl)), s') -> In f fl ->
     price f = JNull \/
     exists t, price f = JStr (upper (or_default (q_currency q) "USD") ++ " " ++ t)).
Proof.
  split.
  - intros e q w s c n fl s' f H Hf.
    destruct (route_flights_first _ _ _ _ _ _ _ _ H) as (raw & Hr).
    destruct (amadeus_flights_first_from_offers _ _ _ Hr f Hf) as (offer & _ & Ho).
    exact (mapOffer_price _ _ _ _ Ho).
  - intros e q w s c n fl s' f H Hf.
    destruct (route_flights _ _ _ _ _ _ _ _ H) as
      (_ & [(_ & code & text & raw & _ & Hr)|(_ & code & text & json & _ & Hr)]).
    + destruct (amadeus_flights_from_offers _ _ _ _ Hr f Hf) as (offer & _ & Ho).
      exact (mapOffer_price _ _ _ _ Ho).
    + destruct (flattenSerpApi_In _ _ _ _ _ _ Hr Hf) as (k & g & Hg).
      rewrite <- (upper_idem (or_default (q_currency q) "USD")).
      exact (serp_record_price _ _ _ _ Hg).
Qed.

Definition query_usd : query :=
  Query (Some "jfk") (Some "lax") (Some "2025-06-01") None (Some "usd") None None.

Lemma price_currency_witness :
  exists f,
    In f (response_flights (flights_route_first env_amadeus query_usd (amadeus_io sample_amadeus)
                                                (St cache0 []))) /\
    price f = JStr "usd 120.50" /\
    (price f = JNull \/ exists t, price f = JStr ("usd" ++ " " ++ t)).
Proof.
  exists (hd dummy_flight (response_flights (flights_route_first env_amadeus query_usd
                                               (amadeus_io sample_amadeus) (St cache0 [])))).
  split; [vm_compute; left; reflexivity|]; split; [vm_compute; reflexivity|].
  apply (proj1 price_currency env_amadeus query_usd (amadeus_io sample_amadeus) (St cache0 [])
           200%Z 1%Z
           (response_flights (flights_route_first env_amadeus query_usd
                                (amadeus_io sample_amadeus) (St cache0 [])))
           (snd (flights_route_first env_amadeus query_usd (amadeus_io sample_amadeus)
                   (St cache0 [])))).
  - vm_compute; reflexivity.
  - vm_compute; left; reflexivity.
Defined.

(** ** Order of the records *)

Lemma map_res_nth {A B} (f : A -> res B) l ys (da : A) (db : B) :
  map_res f l = Ok ys -> forall i, i < length l -> f (nth i l da) = Ok (nth i ys db).
Proof.
  revert ys; induction l as [|x r IH]; simpl; intros ys H i Hi; [lia|].
  destruct (f x) eqn:Hf; simpl in H; [|discriminate].
  destruct (map_res f r) as [ys'|e] eqn:Hr; simpl in H; inversion H; subst.
  destruct i as [|i]; [exact Hf|]; simpl; apply IH; [reflexivity|lia].
Qed.

Lemma mapi_res_nth {B} (f : nat -> jval -> res B) k l ys (db : B) :
  mapi_res f k l = Ok ys -> forall i, i < length l -> f (k + i) (nth i l JUndef) = Ok (nth i ys db).
Proof.
  revert k ys; induction l as [|x r IH]; simpl; intros k ys H i Hi; [lia|].
  destruct (f k x) eqn:Hf; simpl in H; [|discriminate].
  destruct (mapi_res f (S k) r) as [ys'|e] eqn:Hr; simpl in H; inversion H; subst.
  destruct i as [|i]; [rewrite Nat.add_0_r; exact Hf|]; simpl.
  rewrite <- Nat.add_succ_comm; apply IH; [exact Hr|lia].
Qed.

Lemma nth_firstn_lt {A} i k (l : list A) d : i < k -> nth i (firstn k l) d = nth i l d.
Proof.
  revert k l; induction i as [|i IH]; intros [|k] [|x l] Hi; simpl; try reflexivity; try lia.
  apply IH; lia.
Qed.

(** Without an allow-list the normalizers keep the upstream order.  The
    Amadeus path returns one record per offer of [data], the [i]-th record
    mapped from the [i]-th offer.  The SerpApi path returns a prefix of
    the records built from [best_flights] followed by [other_flights], the
    [i]-th record built from the [i]-th result with index [i]. *)
Theorem normalizer_order :
  (forall raw cur fl,
     amadeus_flights raw cur None = Ok fl ->
     let offers := array_items (prop raw "data" ||' JArr []) in
     length fl = length offers /\
     forall i, i < length fl ->
       mapOffer (oget (prop raw "dictionaries") "carriers" ||' empty_obj) cur
                (nth i offers JUndef) = Ok (nth i fl dummy_flight)) /\
  (forall json cur max fl,
     flattenSerpApi json cur max None = Ok fl ->
     let results := (array_items (prop json "best_flights") ++
                     array_items (prop json "other_flights"))%list in
     (exists all k, mapi_res (serp_record cur) 0 results = Ok all /\ fl = firstn k all) /\
     forall i, i < length fl ->
       serp_record cur i (nth i results JUndef) = Ok (nth i fl dummy_flight)).
Proof.
  split.
  - intros raw cur fl; unfold amadeus_flights, js_get.
    destruct (nullish raw); simpl; [discriminate|].
    destruct (prop raw "data" ||' JArr []) as [| | | | | |l|] eqn:Hd; simpl; try discriminate.
    destruct (map_res _ l) as [fl0|ex] eqn:Hm; simpl; [|discriminate].
    intros H; injection H as <-.
    split; [exact (map_res_length _ _ _ Hm)|].
    intros i Hi; rewrite (map_res_length _ _ _ Hm) in Hi.
    exact (map_res_nth _ _ _ _ _ Hm i Hi).
  - intros json cur max fl; unfold flattenSerpApi, js_get.
    destruct (nullish json); simpl; [discriminate|].
    destruct (mapi_res _ 0 _) as [all|ex] eqn:Hm; simpl; [|discriminate].
    intros H; injection H as <-.
    assert (Hpre : exists k, (match max with
                              | JNum m => if (0 <? m)%Z then firstn (Z.to_nat m) all else all
                              | _ => all end) = firstn k all).
    { destruct max as [| | |m| | | |]; try (exists (length all); rewrite firstn_all; reflexivity).
      destruct (0 <? m)%Z; [eauto|exists (length all); rewrite firstn_all; reflexivity]. }
    destruct Hpre as (k & ->).
    split; [eauto|].
    intros i Hi; rewrite length_firstn in Hi.
    pose proof (mapi_res_length _ _ _ _ Hm) as Hlen.
    rewrite nth_firstn_lt by lia.
    apply (mapi_res_nth _ 0 _ _ _ Hm i); lia.
Qed.

Lemma normalizer_order_witness :
  length (ok_or_nil (flattenSerpApi sample_serp "USD" (JNum 20) None)) = 2 /\
  serp_record "USD" 1 (nth 1 (array_items (prop sample_serp "best_flights") ++
                              array_items (prop sample_serp "other_flights"))%list JUndef) =
    Ok (nth 1 (ok_or_nil (flattenSerpApi sample_serp "USD" (JNum 20) None)) dummy_flight) /\
  mapOffer (oget (prop sample_amadeus "dictionaries") "carriers" ||' empty_obj) "USD"
    (nth 0 (array_items (prop sample_amadeus "data" ||' JArr [])) JUndef) =
    Ok (nth 0 (ok_or_nil (amadeus_flights sample_amadeus "USD" None)) dummy_flight).
Proof.
  split; [vm_compute; reflexivity|]; split.
  - apply (proj2 (proj2 normalizer_order sample_serp "USD" (JNum 20)
                    (ok_or_nil (flattenSerpApi sample_serp "USD" (JNum 20) None))
                    ltac:(vm_compute; reflexivity)) 1).
    vm_compute; lia.
  - apply (proj2 (proj1 normalizer_order sample_amadeus "USD"
                    (ok_or_nil (amadeus_flights sample_amadeus "USD" None))
                    ltac:(vm_compute; reflexivity)) 0).
    vm_compute; lia.
Defined.

(** ** Documents without results *)

(** An upstream success whose document has no results is answered 200
    with [count: 0] and an empty list, whatever the other query
    parameters: for SerpApi, a document in which neither [best_flights]
    nor [other_flights] is an array; for Amadeus (once the token is
    obtained), a document whose [data] is absent, falsy or an empty
    array. *)
Theorem no_results_count_0 : forall e q w s,
  params_present q = true ->
  (PROVIDER e = "serpapi" -> missing (SERPAPI_KEY e) = false ->
   forall code text json, io_search w = Reply code text (Some json) -> http_ok code = true ->
   nullish json = false ->
   array_items (prop json "best_flights") = [] -> array_items (prop json "other_flights") = [] ->
   fst (flights_route e q w s) = Ok (Response 200 (BFlights 0 []))) /\
  (PROVIDER e = "amadeus" ->
   missing (CLIENT_ID e) || missing (CLIENT_SECRET e) = false ->
   forall tok s2, getToken e w s = (Ok tok, s2) ->
   forall code text raw, io_search w = Reply code text (Some raw) -> http_ok code = true ->
   nullish raw = false ->
   (truthy (prop raw "data") = false \/ prop raw "data" = JArr []) ->
   fst (flights_route e q w s) = Ok (Response 200 (BFlights 0 []))).
Proof.
  intros e q w s Hq; unfold params_present in Hq; apply negb_true_iff in Hq.
  split.
  - intros Hp Hk code text json Hs Hok Hn Hb Ho.
    unfold flights_route, catch_500; rewrite Hq; cbv zeta; rewrite Hp, Hk; cbn -[searchSerpApi].
    unfold bind at 1; unfold searchSerpApi at 1, bind, record_call; rewrite Hs, Hok; cbn [negb].
    unfold ret, lift, flattenSerpApi, js_get; rewrite Hn; cbn [res_bind].
    rewrite Hb, Ho; destruct (includeSet_of (q_include q)) as [st'|]; cbn;
      [destruct (set_nonempty st')|]; cbn; destruct (0 <? maxNum_of (q_max q))%Z; rewrite ?firstn_nil; reflexivity.
  - intros Hp Hc tok s2 Hg code text raw Hs Hok Hn Hd.
    unfold flights_route, catch_500; rewrite Hq; cbv zeta; rewrite Hp, Hc; cbn -[getToken].
    unfold bind at 1; rewrite Hg; unfold bind, record_call; rewrite Hs, Hok; cbn [negb].
    unfold lift, amadeus_flights, js_get; rewrite Hn; cbn [res_bind].
    assert (Hoff : prop raw "data" ||' JArr [] = JArr []).
    { unfold js_or; destruct Hd as [Hf| ->]; [rewrite Hf|]; reflexivity. }
    rewrite Hoff; cbn; destruct (includeSet_of (q_include q)) as [st'|]; cbn;
      [destruct (set_nonempty st')|]; reflexivity.
Qed.

Definition empty_serp : jval := JObj [("search_metadata", JObj [("status", JStr "Success")])].
Definition empty_amadeus : jval := JObj [("data", JArr [])].

Lemma no_results_count_0_witness :
  fst (flights_route env_serpapi sample_query (serp_io empty_serp) (St cache0 [])) =
    Ok (Response 200 (BFlights 0 [])) /\
  fst (flights_route env_amadeus sample_query (amadeus_io empty_amadeus) (St cache0 [])) =
    Ok (Response 200 (BFlights 0 [])).
Proof.
  split.
  - exact (proj1 (no_results_count_0 env_serpapi sample_query (serp_io empty_serp) (St cache0 [])
                    eq_refl) eq_refl eq_refl 200%Z None empty_serp eq_refl eq_refl eq_refl
                    eq_refl eq_refl).
  - exact (proj2 (no_results_count_0 env_amadeus sample_query (amadeus_io empty_amadeus)
                    (St cache0 []) eq_refl) eq_refl eq_refl (JStr "tok")
                    (snd (getToken env_amadeus (amadeus_io empty_amadeus) (St cache0 [])))
                    ltac:(vm_compute; reflexivity) 200%Z None empty_amadeus eq_refl eq_refl eq_refl
                    (or_intror eq_refl)).
Defined.

(** ** A token response without [expires_in] *)

Lemma store_token_calls msg now r s res s1 :
  store_token msg now r s = (res, s1) -> st_calls s1 = st_calls s.
Proof.
  intros H; apply store_token_cases in H.
  destruct H as [(_ & Hc & _)|(? & ? & ? & _ & _ & _ & Hc & _)]; exact Hc.
Qed.

(** If the token response has no [expires_in], [tokenExpiry] becomes
    [NaN] ([now + undefined]): the token is cached but never reused, and
    the next call of [getToken], at any time, requests a new token. *)
Theorem token_without_expiry_refetched : forall e w1 w2 s v s1 code text json,
  missing (CLIENT_ID e) || missing (CLIENT_SECRET e) = false ->
  getToken e w1 s = (Ok v, s1) ->
  st_calls s1 = (st_calls s ++ [CallToken])%list ->
  io_token w1 = Reply code text (Some json) ->
  prop json "expires_in" = JUndef ->
  st_cache s1 = Cache v JNaN /\
  st_calls (snd (getToken e w2 s1)) = (st_calls s1 ++ [CallToken])%list.
Proof.
  intros e w1 w2 s v s1 code text json Hc H1 Hcalls Hr Hex.
  apply getToken_cases in H1.
  destruct H1 as [(-> & _)|(Hp & _ & Hst)];
    [exfalso; exact (app_cons_neq _ _ Hcalls)|].
  apply store_token_cases in Hst.
  destruct Hst as [(_ & _ & (ex & Hx) & _)|(code' & text' & json' & Hr' & _ & Hv & _ & Hcache)];
    [discriminate|].
  rewrite Hr in Hr'; injection Hr' as <- <- <-.
  rewrite Hex in Hcache; cbn in Hcache; injection Hv as Hv.
  assert (Hc1 : st_cache s1 = Cache v JNaN) by (rewrite Hcache, Hv; reflexivity).
  split; [exact Hc1|].
  unfold getToken; rewrite Hp; cbn [String.eqb Ascii.eqb Bool.eqb andb negb].
  unfold bind at 1, get_cache; rewrite Hc1; cbn [cachedToken tokenExpiry].
  replace (still_valid (io_now w2) JNaN) with false by reflexivity.
  rewrite andb_false_r, Hc; unfold bind, record_call.
  destruct (store_token _ _ _ _) as [r2 s2] eqn:Hs2; cbn [snd].
  rewrite (store_token_calls _ _ _ _ _ _ Hs2); reflexivity.
Qed.

Definition token_reply_no_expiry : http :=
  Reply 200 None (Some (JObj [("access_token", JStr "tok")])).

Lemma token_without_expiry_refetched_witness :
  st_cache (snd (getToken env_amadeus (IO 1000 1001 token_reply_no_expiry (NetFail "x"))
                          (St cache0 []))) = Cache (JStr "tok") JNaN /\
  st_calls (snd (getToken env_amadeus (IO 1002 1003 token_reply (NetFail "x"))
                   (snd (getToken env_amadeus (IO 1000 1001 token_reply_no_expiry (NetFail "x"))
                           (St cache0 []))))) = [CallToken; CallToken].
Proof.
  exact (token_without_expiry_refetched env_amadeus
           (IO 1000 1001 token_reply_no_expiry (NetFail "x")) (IO 1002 1003 token_reply (NetFail "x"))
           (St cache0 []) (JStr "tok")
           (snd (getToken env_amadeus (IO 1000 1001 token_reply_no_expiry (NetFail "x"))
                   (St cache0 [])))
           200 None (JObj [("access_token", JStr "tok")])
           eq_refl ltac:(vm_compute; reflexivity) eq_refl eq_refl eq_refl).
Defined.

(** ** The earliest server *)

Lemma getAmadeusToken_state w s r s1 :
  getAmadeusToken w s = (r, s1) -> s1 = St (st_cache s) (st_calls s ++ [CallToken])%list.
Proof.
  unfold getAmadeusToken, bind, record_call; cbn [fst snd].
  destruct (io_token w) as [m|c t [d|]]; [intros Hx; inversion Hx; auto| |
    intros Hx; inversion Hx; auto].
  destruct (negb (http_ok c)); [intros Hx; inversion Hx; auto|].
  unfold lift; intros Hx; inversion Hx; auto.
Qed.

(** The earliest route keeps no token cache: a request without origin,
    destination or date is answered 400 with no upstream request; any
    other request asks for a new token, and then for at most one search of
    five offers with the parameters as given (not upper-cased); the cache
    is never touched. *)
Theorem route0_calls : forall q w s r s1,
  flights_route0 q w s = (r, s1) ->
  st_cache s1 = st_cache s /\
  (params_present q = false ->
   r = Ok (Response0 400 (B0Error "Missing required parameters: origin, destination, date")) /\
   s1 = s) /\
  (params_present q = true ->
   st_calls s1 = (st_calls s ++ [CallToken])%list \/
   st_calls s1 = (st_calls s ++ [CallToken;
                   CallAmadeusSearch (search_params0 (or_default (q_origin q) EmptyString)
                                        (or_default (q_destination q) EmptyString)
                                        (or_default (q_date q) EmptyString))])%list).
Proof.
  intros q w s r s1; unfold flights_route0, params_present.
  destruct (missing (q_origin q) || missing (q_destination q) || missing (q_date q)); cbn [negb].
  - unfold ret; intros H; inversion H; subst; split; [reflexivity|]; split; [auto|discriminate].
  - cbv zeta; unfold bind at 1.
    destruct (getAmadeusToken w s) as [[tok|ex] s2] eqn:Hg; apply getAmadeusToken_state in Hg; subst s2.
    + unfold bind, record_call; cbn [st_cache st_calls].
      match goal with
      | |- context [CallAmadeusSearch ?X] => set (params := X)
      end.
      intros H.
      assert (Hs1 : s1 = St (st_cache s) ((st_calls s ++ [CallToken]) ++ [CallAmadeusSearch params])%list).
      { unfold ret, throw in H.
        destruct (io_search w) as [m|c t [d|]]; [inversion H; reflexivity| |inversion H; reflexivity].
        destruct (negb (http_ok c)); inversion H; reflexivity. }
      subst s1; cbn; split; [reflexivity|]; split; [discriminate|].
      intros _; right; rewrite <- app_assoc; reflexivity.
    + intros H; inversion H; subst; cbn; split; [reflexivity|]; split; [discriminate|auto].
Qed.

Lemma route0_calls_witness :
  st_calls (snd (flights_route0 sample_query (amadeus_io sample_amadeus)
                                (St (Cache (JStr "tok") (JNum 99999)) []))) =
    [CallToken; CallAmadeusSearch (search_params0 "jfk" "lax" "2025-06-01")] /\
  st_cache (snd (flights_route0 sample_query (amadeus_io sample_amadeus)
                                (St (Cache (JStr "tok") (JNum 99999)) []))) =
    Cache (JStr "tok") (JNum 99999).
Proof.
  destruct (route0_calls sample_query (amadeus_io sample_amadeus)
              (St (Cache (JStr "tok") (JNum 99999)) []) _ _ (surjective_pairing _))
    as (Hc & _ & Hp).
  split; [|exact Hc].
  destruct (Hp eq_refl) as [H|H]; [vm_compute in H; discriminate|exact H].
Defined.

(** Once the earliest route has a token, it forwards the upstream search
    answer as it came: a JSON body is sent back unchanged, with status 200
    on success and the upstream status otherwise; a body that is not JSON
    (an HTML error page, say) gives 500 ["Server error"] whatever the
    upstream status.  A token answer that is not JSON, or not a success,
    also gives 500. *)
Theorem route0_passthrough : forall q w s,
  params_present q = true ->
  (forall tc tt td, io_token w = Reply tc tt (Some td) -> http_ok tc = true ->
   nullish td = false ->
   (forall code text data, io_search w = Reply code text (Some data) ->
      fst (flights_route0 q w s) =
        Ok (Response0 (if http_ok code then 200 else code) (B0Json data))) /\
   (forall code text, io_search w = Reply code text None ->
      fst (flights_route0 q w s) = Ok (Response0 500 (B0Error "Server error")))) /\
  (forall tc tt j, io_token w = Reply tc tt j -> (j = None \/ http_ok tc = false) ->
   fst (flights_route0 q w s) = Ok (Response0 500 (B0Error "Server error"))).
Proof.
  intros q w s Hq; unfold params_present in Hq; apply negb_true_iff in Hq.
  unfold flights_route0; rewrite Hq; cbv zeta.
  split.
  - intros tc tt td Ht Hok Hn; split.
    + intros code text data Hs.
      unfold bind, getAmadeusToken, record_call, lift, js_get; rewrite Ht, Hok, Hn; cbn.
      rewrite Hs; unfold ret; destruct (http_ok code); reflexivity.
    + intros code text Hs.
      unfold bind, getAmadeusToken, record_call, lift, js_get; rewrite Ht, Hok, Hn; cbn.
      rewrite Hs; reflexivity.
  - intros tc tt j Ht Hj.
    unfold bind, getAmadeusToken, record_call; rewrite Ht; cbn.
    destruct Hj as [-> | Hf]; [reflexivity|].
    destruct j; [rewrite Hf|]; reflexivity.
Qed.

Definition html_reply : http := Reply 502 (Some "<html>Bad gateway</html>") None.

Lemma route0_passthrough_witness :
  fst (flights_route0 sample_query (amadeus_io sample_amadeus) (St cache0 [])) =
    Ok (Response0 200 (B0Json sample_amadeus)) /\
  fst (flights_route0 sample_query (IO 0 0 token_reply html_reply) (St cache0 [])) =
    Ok (Response0 500 (B0Error "Server error")).
Proof.
  split.
  - exact (proj1 (proj1 (route0_passthrough sample_query (amadeus_io sample_amadeus) (St cache0 [])
                           eq_refl) 200%Z None _ eq_refl eq_refl eq_refl)
             200%Z None sample_amadeus eq_refl).
  - exact (proj2 (proj1 (route0_passthrough sample_query (IO 0 0 token_reply html_reply)
                           (St cache0 []) eq_refl) 200%Z None _ eq_refl eq_refl eq_refl)
             502%Z (Some "<html>Bad gateway</html>") eq_refl).
Defined.

(** ** Health endpoints *)

(** The health endpoints report which credentials are present but never
    their values: the only strings in their JSON are the provider name and
    the endpoint path (unified version), the endpoint path (first
    version), or the Amadeus base URL and the endpoint path (earliest
    server). *)
Theorem health_no_credentials :
  (forall e s, In s (str_leaves (health e)) -> s = PROVIDER e \/ s = "/amadeus/flights") /\
  (forall e s, In s (str_leaves (health_first e)) -> s = "/amadeus/flights") /\
  (forall e s, In s (str_leaves (health0 e)) -> s = AMADEUS_BASE0 e \/ s = "/amadeus/flights").
Proof.
  split; [|split]; intros e s H; cbn in H; intuition congruence.
Qed.

Lemma health_no_credentials_witness :
  ~ In "secret" (str_leaves (health (env_of [("FLYBY_PROVIDER", "amadeus");
                                             ("AMADEUS_CLIENT_ID", "id");
                                             ("AMADEUS_CLIENT_SECRET", "secret")]))) /\
  prop (prop (health (env_of [("FLYBY_PROVIDER", "amadeus"); ("AMADEUS_CLIENT_ID", "id");
                              ("AMADEUS_CLIENT_SECRET", "secret")])) "env")
       "AMADEUS_CLIENT_SECRET_present" = JBool true.
Proof.
  split; [|reflexivity].
  intros H.
  destruct (proj1 health_no_credentials _ _ H) as [Hs|Hs]; vm_compute in Hs; discriminate.
Defined.

(** ** Upstream errors *)

(** Once a token is in hand, an Amadeus search answered with a
    non-success status [code] and a readable body [t] is answered with the
    same status and [{error: 'Amadeus returned an error', detail: t}], in
    the unified and in the first version of the route; a SerpApi search
    answered with a non-success status is answered 500 with the detail
    ["SerpApi error <code>: <body>"] ([''] for an unreadable body). *)
Theorem upstream_error_mapping : forall e q w s,
  params_present q = true ->
  (PROVIDER e = "amadeus" -> missing (CLIENT_ID e) || missing (CLIENT_SECRET e) = false ->
   forall tok s2, getToken e w s = (Ok tok, s2) ->
   forall code t j, io_search w = Reply code (Some t) j -> http_ok code = false ->
   fst (flights_route e q w s) =
     Ok (Response code (BError "Amadeus returned an error" (Some (JStr t))))) /\
  (forall tok s2, getToken_first w s = (Ok tok, s2) ->
   forall code t j, io_search w = Reply code (Some t) j -> http_ok code = false ->
   fst (flights_route_first e q w s) =
     Ok (Response code (BError "Amadeus returned an error" (Some (JStr t))))) /\
  (PROVIDER e = "serpapi" -> missing (SERPAPI_KEY e) = false ->
   forall code text j, io_search w = Reply code text j -> http_ok code = false ->
   fst (flights_route e q w s) =
     Ok (Response 500 (BError "Server error"
           (Some (JStr ("SerpApi error " ++ show_Z code ++ ": " ++ or_default text EmptyString)))))).
Proof.
  intros e q w s Hq; unfold params_present in Hq; apply negb_true_iff in Hq.
  split; [|split].
  - intros Hp Hc tok s2 Hg code t j Hs Hok.
    unfold flights_route, catch_500; rewrite Hq; cbv zeta; rewrite Hp, Hc; cbn -[getToken].
    unfold bind at 1; rewrite Hg; unfold bind, record_call; rewrite Hs, Hok; reflexivity.
  - intros tok s2 Hg code t j Hs Hok.
    unfold flights_route_first, catch_500; rewrite Hq; cbv zeta; cbn -[getToken_first].
    unfold bind at 1; rewrite Hg; unfold bind, record_call; rewrite Hs, Hok; reflexivity.
  - intros Hp Hk code text j Hs Hok.
    unfold flights_route, catch_500; rewrite Hq; cbv zeta; rewrite Hp, Hk; cbn -[searchSerpApi].
    unfold bind at 1, searchSerpApi, bind, record_call; rewrite Hs, Hok; reflexivity.
Qed.

Lemma upstream_error_mapping_witness :
  fst (flights_route env_amadeus sample_query (IO 1000 1001 token_reply quota_reply)
         (St cache0 [])) =
    Ok (Response 429 (BError "Amadeus returned an error" (Some (JStr "quota exceeded")))) /\
  fst (flights_route_first env_amadeus sample_query (IO 1000 1001 token_reply quota_reply)
         (St cache0 [])) =
    Ok (Response 429 (BError "Amadeus returned an error" (Some (JStr "quota exceeded")))) /\
  fst (flights_route env_serpapi sample_query (IO 0 0 (NetFail "unused") quota_reply)
         (St cache0 [])) =
    Ok (Response 500 (BError "Server error"
          (Some (JStr ("SerpApi error " ++ show_Z 429 ++ ": " ++ "quota exceeded"))))).
Proof.
  split; [|split].
  - exact (proj1 (upstream_error_mapping env_amadeus sample_query
                    (IO 1000 1001 token_reply quota_reply) (St cache0 []) eq_refl)
             eq_refl eq_refl (JStr "tok")
             (snd (getToken env_amadeus (IO 1000 1001 token_reply quota_reply) (St cache0 [])))
             ltac:(vm_compute; reflexivity) 429%Z "quota exceeded" None eq_refl eq_refl).
  - exact (proj1 (proj2 (upstream_error_mapping env_amadeus sample_query
                    (IO 1000 1001 token_reply quota_reply) (St cache0 []) eq_refl))
             (JStr "tok")
             (snd (getToken_first (IO 1000 1001 token_reply quota_reply) (St cache0 [])))
             ltac:(vm_compute; reflexivity) 429%Z "quota exceeded" None eq_refl eq_refl).
  - exact (proj2 (proj2 (upstream_error_mapping env_serpapi sample_query
                    (IO 0 0 (NetFail "unused") quota_reply) (St cache0 []) eq_refl))
             eq_refl eq_refl 429%Z (Some "quota exceeded") None eq_refl eq_refl).
Defined.

(** ** Letter case of [include] *)

Lemma is_ws_upper c : is_ws (upper_char c) = is_ws c.
Proof. destruct c as [[] [] [] [] [] [] [] []]; vm_compute; reflexivity. Qed.

Lemma comma_upper c : Ascii.eqb (upper_char c) "," = Ascii.eqb c ",".
Proof. destruct c as [[] [] [] [] [] [] [] []]; vm_compute; reflexivity. Qed.

Lemma split_comma_upper s : split_comma (upper s) = map upper (split_comma s).
Proof.
  induction s as [|c r IH]; [reflexivity|]; cbn [upper split_comma]; rewrite IH.
  pose proof (split_comma_nonempty r) as Hne.
  destruct (split_comma r) as [|w ws]; [contradiction|]; cbn [map].
  rewrite comma_upper; destruct (Ascii.eqb c ","); reflexivity.
Qed.

Lemma trim_start_upper s : trim_start (upper s) = upper (trim_start s).
Proof.
  induction s as [|c r IH]; [reflexivity|]; cbn [upper trim_start].
  rewrite is_ws_upper; destruct (is_ws c); [exact IH|reflexivity].
Qed.

Lemma list_ascii_upper s : list_ascii_of_string (upper s) = map upper_char (list_ascii_of_string s).
Proof. induction s as [|c r IH]; simpl; [reflexivity|]; rewrite IH; reflexivity. Qed.

Lemma string_of_list_upper l : string_of_list_ascii (map upper_char l) = upper (string_of_list_ascii l).
Proof. induction l as [|c r IH]; simpl; [reflexivity|]; rewrite IH; reflexivity. Qed.

Lemma trim_upper s : trim (upper s) = upper (trim s).
Proof.
  unfold trim, trim_end; rewrite trim_start_upper.
  rewrite list_ascii_upper, <- map_rev, string_of_list_upper, trim_start_upper,
    list_ascii_upper, <- map_rev, string_of_list_upper; reflexivity.
Qed.

Lemma includeSet_of_upper inc : includeSet_of (Some (upper inc)) = includeSet_of (Some inc).
Proof.
  unfold includeSet_of, missing; rewrite upper_empty.
  destruct (String.eqb inc EmptyString); [reflexivity|]; cbn [negb or_default].
  rewrite split_comma_upper, map_map; f_equal; apply map_ext; intros x.
  rewrite trim_upper, upper_idem; reflexivity.
Qed.

Definition with_include (q : query) (inc : option string) : query :=
  Query (q_origin q) (q_destination q) (q_date q) (q_returnDate q) (q_currency q) (q_max q) inc.

(** The [include] parameter is case-insensitive: upper-casing it changes
    neither the answer of the route nor the upstream requests it makes
    (both providers, unified version). *)
Theorem include_case_insensitive : forall e q w s inc,
  q_include q = Some inc ->
  flights_route e (with_include q (Some (upper inc))) w s = flights_route e q w s.
Proof.
  intros e q w s inc Hi.
  unfold flights_route; cbn [with_include q_origin q_destination q_date q_returnDate
                             q_currency q_max q_include].
  rewrite includeSet_of_upper, Hi.
  unfold missing; rewrite upper_empty; cbn [or_default]; rewrite upper_idem; reflexivity.
Qed.

Definition query_include (inc : string) : query :=
  Query (Some "jfk") (Some "lax") (Some "2025-06-01") None None None (Some inc).

Lemma include_case_insensitive_witness :
  flights_route env_serpapi (with_include (query_include "dl, aa") (Some (upper "dl, aa")))
    (serp_io sample_serp) (St cache0 []) =
  flights_route env_serpapi (query_include "dl, aa") (serp_io sample_serp) (St cache0 []).
Proof. exact (include_case_insensitive env_serpapi (query_include "dl, aa") (serp_io sample_serp)
                (St cache0 []) "dl, aa" eq_refl). Defined.
